(** * River data collector: shallow embedding and verified properties

    The pipeline of [main.py]: geocode a region, download its river ways,
    normalise them, compare with the stored snapshot and, when they differ,
    rewrite the snapshot file, the relational table and the Neo4j graph. *)

From stdpp Require Import gmap strings list fin_maps pretty.

Open Scope Z_scope.

Set Warnings "-clear-no-such-hyp".

(** ** Exceptions (utils/exceptions.py and the library classes that reach main) *)

(** Library and built-in exception classes.  Messages are not modelled. *)
Inductive lib_exn : Type :=
| GeocoderTimedOut        (* geopy.exc *)
| GeocoderUnavailable     (* geopy.exc *)
| GeocoderServiceError    (* geopy.exc, any other geocoder failure *)
| RequestException        (* requests, with its subclasses *)
| Psycopg2Error           (* psycopg2.Error *)
| Neo4jError              (* neo4j driver *)
| OSError
| JSONDecodeError
| ValueError
| KeyError
| IndexError.

#[global] Instance lib_exn_eq_dec : EqDecision lib_exn.
Proof. solve_decision. Defined.

(** The five classes of utils/exceptions.py carry the cause given to
    [raise ... from e]; every other exception is a [LibraryError]. *)
Inductive exn : Type :=
| ConfigError
| DatabaseError (cause : exn)
| GeocodingError (cause : option lib_exn)
| GraphBuilderError (cause : exn)
| OsmApiError (cause : lib_exn)
| LibraryError (e : lib_exn).

#[global] Instance exn_eq_dec : EqDecision exn.
Proof. solve_decision. Defined.

Definition result (A : Type) : Type := (exn + A)%type.

#[global] Instance result_ret : MRet result := λ A x, inr x.
#[global] Instance result_bind : MBind result := λ A B f m,
  match m with inl e => inl e | inr x => f x end.

Definition raise {A} (e : lib_exn) : result A := inl (LibraryError e).

(** [d[k]] on a key that may be missing. *)
Definition getitem {A} (o : option A) : result A :=
  match o with Some x => inr x | None => raise KeyError end.

Section Pipeline.

(** Coordinate components are JSON numbers compared with [==]; they are kept
    abstract, with a decidable exact equality. *)
Context {num : Type} `{EqDecision num}.

(** ** Data model *)

Record point := Point { lat : num; lon : num }.

(** A processed element: the dict with keys "id", "geometry", "name". *)
Record element := Element {
  e_id : Z;
  e_geometry : list point;
  e_name : option string
}.

(** A raw Overpass element; every key may be missing. *)
Record raw_element := RawElement {
  r_type : option string;
  r_id : option Z;
  r_geometry : option (list point);
  r_tags : option (gmap string string)
}.

(** The raw response: a dict whose "elements" key may be missing. *)
Record raw_data := RawData { raw_elements : option (list raw_element) }.

#[global] Instance point_eq_dec : EqDecision point.
Proof. solve_decision. Defined.
#[global] Instance element_eq_dec : EqDecision element.
Proof. solve_decision. Defined.

(** ** data/data_processor.py *)

Definition _extract_geometry (el : raw_element) : result (list point) :=
  ty ← getitem (r_type el);
  mret (if decide (ty = "way") then default [] (r_geometry el) else []).

Definition _process (el : raw_element) : result element :=
  i ← getitem (r_id el);
  g ← _extract_geometry el;
  mret {| e_id := i; e_geometry := g;
          e_name := default ∅ (r_tags el) !! "name" |}.

(** The loop of [process_data], appending to [processed_data]. *)
Fixpoint process_loop (els : list raw_element) (processed_data : list element)
  : result (list element) :=
  match els with
  | [] => mret processed_data
  | el :: els' =>
      ty ← getitem (r_type el);
      if decide (ty = "way") then
        processed_element ← _process el;
        process_loop els' (processed_data ++ [processed_element])
      else process_loop els' processed_data
  end.

Definition process_data (raw : raw_data) : result (list element) :=
  process_loop (default [] (raw_elements raw)) [].

(** [new_data != old_data]; the old data is [None] when no snapshot exists. *)
Definition is_data_changed (new_data : list element)
  (old_data : option (list element)) : bool :=
  negb (bool_decide (Some new_data = old_data)).


(** ** data/graph_builder.py: the connection map and the relationships *)

(** The dict key [(lat, lon)]. *)
Definition coord : Type := num * num.

(** [defaultdict(set)]: a dict keeps its keys in insertion order, so it is an
    association list with one entry per key. *)
Definition connection_map : Type := list (coord * gset Z).

(** [connection_map[k].add(i)] *)
Fixpoint map_add (k : coord) (i : Z) (m : connection_map) : connection_map :=
  match m with
  | [] => [(k, {[ i ]})]
  | (k', ids) :: m' =>
      if decide (k = k') then (k', {[ i ]} ∪ ids) :: m'
      else (k', ids) :: map_add k i m'
  end.

(** [(geometry[0]["lat"], geometry[0]["lon"])] *)
Definition start_point (e : element) : result coord :=
  match e_geometry e with
  | [] => raise IndexError
  | p :: _ => mret (lat p, lon p)
  end.

(** [(geometry[-1]["lat"], geometry[-1]["lon"])] *)
Definition end_point (e : element) : result coord :=
  match last (e_geometry e) with
  | None => raise IndexError
  | Some p => mret (lat p, lon p)
  end.

Fixpoint build_loop (elements : list element) (m : connection_map)
  : result connection_map :=
  match elements with
  | [] => mret m
  | e :: es =>
      s ← start_point e;
      t ← end_point e;
      build_loop es (map_add t (e_id e) (map_add s (e_id e) m))
  end.

Definition _build_connection_map (elements : list element)
  : result connection_map :=
  build_loop elements [].

(** A relationship dict with keys "from" and "to". *)
Record relationship := Rel { rel_from : Z; rel_to : Z }.

#[global] Instance relationship_eq_dec : EqDecision relationship.
Proof. solve_decision. Defined.

(** The comprehension over [i < j]: the head paired with every later
    element, then the pairs of the tail. *)
Fixpoint pairs (connected_list : list Z) : list relationship :=
  match connected_list with
  | [] => []
  | x :: rest => map (Rel x) rest ++ pairs rest
  end.

(** [list(connected_ids)]: the iteration order of a Python set is not
    specified; it is any enumeration of the set. *)
Variable set_list : gset Z → list Z.
Hypothesis set_list_perm : ∀ s, set_list s ≡ₚ elements s.

Fixpoint _generate_relationships (m : connection_map) : list relationship :=
  match m with
  | [] => []
  | (_, connected_ids) :: m' =>
      (if bool_decide (1 < size connected_ids)%nat
       then pairs (set_list connected_ids) else [])
      ++ _generate_relationships m'
  end.

(** What [_create_relationships] sends to the session. *)
Definition relationships_of (elements : list element)
  : result (list relationship) :=
  connection_map ← _build_connection_map elements;
  mret (_generate_relationships connection_map).

(** ** The Neo4j store *)

(** The [Element] nodes, keyed by their [id] property, with their [name], and
    the [CONNECTS_TO] relationships between them, as (start id, end id), one
    list entry per stored relationship. *)
Record neo4j := Neo4j {
  nodes : gmap Z (option string);
  rels : list (Z * Z)
}.

(** [MERGE (a)-[:CONNECTS_TO]->(b)]: the relationship is created unless one
    from [a] to [b] is already stored. *)
Definition merge_rel (a b : Z) (rs : list (Z * Z)) : list (Z * Z) :=
  if decide ((a, b) ∈ rs) then rs else rs ++ [(a, b)].

(** One row of the relationship query: both nodes must match. *)
Definition connect (g : neo4j) (r : relationship) : neo4j :=
  if decide (is_Some (nodes g !! rel_from r) ∧ is_Some (nodes g !! rel_to r))
  then {| nodes := nodes g;
          rels := merge_rel (rel_to r) (rel_from r)
                    (merge_rel (rel_from r) (rel_to r) (rels g)) |}
  else g.

(** One row of the node query: [MERGE (e:Element {id}) SET e.name]. *)
Definition merge_node (g : neo4j) (e : element) : neo4j :=
  {| nodes := <[ e_id e := e_name e ]> (nodes g); rels := rels g |}.

(** [MATCH (n:Element) DETACH DELETE n] *)
Definition detach_delete_all (g : neo4j) : neo4j :=
  {| nodes := ∅; rels := [] |}.


(** ** utils/config.py *)

Record SQLConfig := {
  sql_host : option string; sql_port : option string; sql_name : option string;
  sql_user : option string; sql_password : option string;
  sql_table : option string
}.

Record Neo4jConfig := {
  neo4j_uri : option string; neo4j_user : option string;
  neo4j_password : option string; neo4j_graph_name : option string
}.

(** The class attributes read from the environment; [None] when unset. *)
Record Config := {
  REGION : option string;
  SQL_CONFIG : SQLConfig;
  NEO4J_CONFIG : Neo4jConfig;
  LOGGER_CONFIG_PATH : option string;
  OUTPUT_DIR_PATH : option string;
  OUTPUT_FILE_NAME : option string;
  GEOCODING_AGENT : option string;
  OSM_API_URL : option string
}.

(** Truth value of an optional string: neither [None] nor empty. *)
Definition truthy (o : option string) : bool :=
  match o with
  | Some s => negb (bool_decide (s = ""))
  | None => false
  end.

Definition _validate_sql_config (c : Config) : result unit :=
  let q := SQL_CONFIG c in
  if forallb truthy [sql_host q; sql_port q; sql_name q; sql_user q;
                     sql_password q; sql_table q]
  then mret () else inl ConfigError.

Definition _validate_neo4j_config (c : Config) : result unit :=
  let n := NEO4J_CONFIG c in
  if forallb truthy [neo4j_uri n; neo4j_user n; neo4j_password n;
                     neo4j_graph_name n]
  then mret () else inl ConfigError.

Definition validate (c : Config) : result unit :=
  if negb (truthy (REGION c)) then raise ValueError else
  _validate_sql_config c;;
  _validate_neo4j_config c;;
  if negb (truthy (LOGGER_CONFIG_PATH c)) then inl ConfigError else
  if negb (truthy (OUTPUT_DIR_PATH c)) then inl ConfigError else
  if negb (truthy (OUTPUT_FILE_NAME c)) then inl ConfigError else
  if negb (truthy (GEOCODING_AGENT c)) then inl ConfigError else
  if negb (truthy (OSM_API_URL c)) then inl ConfigError else
  mret ().

(** ** The collaborators *)

(** What [geolocator.geocode(region, exactly_one=True)] does: a location
    with its [raw["boundingbox"]], no location, or an exception. *)
Inductive geocode_outcome : Type :=
| Located (boundingbox : list string)
| NotLocated
| GeocodeRaises (e : lib_exn).

(** The behaviour of everything outside the process during one run: the
    environment variables, the two web services, and the failures of the
    file system, PostgreSQL and Neo4j at each statement ([None]: it works). *)
Record env := Env {
  config : Config;
  init_fault : option lib_exn;
  geocode : string → geocode_outcome;
  overpass : string → string → lib_exn + raw_data;
  open_read_fault : option lib_exn;
  open_write_fault : option lib_exn;
  dump_fault : option lib_exn;
  truncate_connect_fault : option lib_exn;
  truncate_fault : option lib_exn;
  insert_connect_fault : option lib_exn;
  insert_fault : Z → option string → string → option lib_exn;
  delete_fault : option lib_exn;
  nodes_fault : option lib_exn;
  relationships_fault : option lib_exn
}.

Variable E : env.

(** ** data/geocoder.py *)

(** [l[i]] on a list. *)
Definition index {A} (l : list A) (i : nat) : result A :=
  match l !! i with Some x => inr x | None => raise IndexError end.

Definition get_region_bbox (region_name : string) : result string :=
  match geocode E region_name with
  | GeocodeRaises e =>
      if bool_decide (e = GeocoderTimedOut ∨ e = GeocoderUnavailable)
      then inl (GeocodingError (Some e)) else raise e
  | NotLocated => inl (GeocodingError None)
  | Located boundingbox =>
      b0 ← index boundingbox 0;
      b2 ← index boundingbox 2;
      b1 ← index boundingbox 1;
      b3 ← index boundingbox 3;
      mret (String.concat "," [b0; b2; b1; b3])
  end.

(** ** data/osm_downloader.py *)

Definition dq : string := String (Ascii.ascii_of_nat 34) "".
Definition nl : string := String (Ascii.ascii_of_nat 10) "".

Definition _build_query (bbox : string) : string :=
  nl +:+ "        [out:json];" +:+ nl
  +:+ "        (" +:+ nl
  +:+ "          way[" +:+ dq +:+ "waterway" +:+ dq +:+ "=" +:+ dq +:+ "river"
  +:+ dq +:+ "](" +:+ bbox +:+ ");" +:+ nl
  +:+ "          relation[" +:+ dq +:+ "waterway" +:+ dq +:+ "=" +:+ dq
  +:+ "river" +:+ dq +:+ "](" +:+ bbox +:+ ");" +:+ nl
  +:+ "        );" +:+ nl
  +:+ "        out geom;" +:+ nl
  +:+ "        ".

Definition download_data (bbox : string) : result raw_data :=
  let query := _build_query bbox in
  match overpass E (default "" (OSM_API_URL (config E))) query with
  | inr response => mret response
  | inl e =>
      if bool_decide (e = RequestException) then inl (OsmApiError e)
      else raise e
  end.


(** ** data/data_storage.py: the snapshot file *)

(** The target file: missing, holding the dump of a collection, or holding
    text that is not a JSON document (a dump cut short). *)
Inductive file : Type :=
| NoFile
| JsonFile (data : list element)
| Garbage.

(** [open(target, "w")] then [json.dump]. *)
Definition JsonDataStorage_save_data (data : list element) (f : file)
  : result unit * file :=
  match open_write_fault E with
  | Some e => (raise e, f)
  | None =>
      match dump_fault E with
      | Some e => (raise e, Garbage)
      | None => (mret (), JsonFile data)
      end
  end.

(** [None] when the file does not exist, else [json.load]. *)
Definition JsonDataStorage_get_data (f : file)
  : result (option (list element)) :=
  match f with
  | NoFile => mret None
  | _ =>
      match open_read_fault E with
      | Some e => raise e
      | None =>
          match f with
          | JsonFile data => mret (Some data)
          | _ => raise JSONDecodeError
          end
      end
  end.

(** ** data/data_storage.py: the relational table *)

(** How an f-string prints a coordinate component. *)
Variable fmt : num → string.

(** Rows are keyed by [id] and hold [name] and the geometry built by
    [ST_GeomFromText] from the linestring text, kept as that text. *)
Definition row : Type := option string * string.

(** [psycopg2.connect]; only [psycopg2.Error] is wrapped here. *)
Definition _get_connection (fault : option lib_exn) : result unit :=
  match fault with
  | None => mret ()
  | Some e =>
      if bool_decide (e = Psycopg2Error)
      then inl (DatabaseError (LibraryError e)) else raise e
  end.

(** Every coordinate is a dict with "lat" and "lon" here, so only the first
    branch of the loop is taken; the list branch and the [ValueError] need a
    coordinate of another shape. *)
Definition _create_linestring (coordinates : list point) : string :=
  "LINESTRING("
  +:+ String.concat ", "
        (map (λ c, fmt (lon c) +:+ " " +:+ fmt (lat c)) coordinates)
  +:+ ")".

(** The loop of [save_data]: one upsert and one commit per item. *)
Fixpoint save_loop (data : list element) (t : gmap Z row)
  : result unit * gmap Z row :=
  match data with
  | [] => (mret (), t)
  | item :: rest =>
      let linestring := _create_linestring (e_geometry item) in
      match insert_fault E (e_id item) (e_name item) linestring with
      | Some e => (raise e, t)
      | None => save_loop rest (<[ e_id item := (e_name item, linestring) ]> t)
      end
  end.

(** [except Exception as e: raise DatabaseError(...) from e] *)
Definition as_DatabaseError {A} (r : result A) : result A :=
  match r with inl e => inl (DatabaseError e) | inr x => inr x end.

Definition SqlDataStorage_save_data (data : list element) (t : gmap Z row)
  : result unit * gmap Z row :=
  match _get_connection (insert_connect_fault E) with
  | inl e => (inl (DatabaseError e), t)
  | inr _ => let (r, t') := save_loop data t in (as_DatabaseError r, t')
  end.

(** [TRUNCATE TABLE] and its commit. *)
Definition SqlDataStorage_cleanup (t : gmap Z row) : result unit * gmap Z row :=
  match _get_connection (truncate_connect_fault E) with
  | inl e => (inl (DatabaseError e), t)
  | inr _ =>
      match truncate_fault E with
      | Some e => (inl (DatabaseError (LibraryError e)), t)
      | None => (mret (), ∅)
      end
  end.

(** ** data/graph_builder.py: the queries *)

(** [except Exception as e: raise GraphBuilderError(...) from e] *)
Definition as_GraphBuilderError {A} (r : result A) : result A :=
  match r with inl e => inl (GraphBuilderError e) | inr x => inr x end.

Definition GraphBuilder_cleanup (g : neo4j) : result unit * neo4j :=
  match delete_fault E with
  | Some e => (inl (GraphBuilderError (LibraryError e)), g)
  | None => (mret (), detach_delete_all g)
  end.

Definition _create_nodes (elements : list element) (g : neo4j)
  : result unit * neo4j :=
  match nodes_fault E with
  | Some e => (raise e, g)
  | None => (mret (), foldl merge_node g elements)
  end.

Definition _create_relationships (elements : list element) (g : neo4j)
  : result unit * neo4j :=
  match relationships_of elements with
  | inl e => (inl e, g)
  | inr relationships =>
      match relationships_fault E with
      | Some e => (raise e, g)
      | None => (mret (), foldl connect g relationships)
      end
  end.

Definition GraphBuilder_build_graph (elements : list element)
  (graph_name : option string) (g : neo4j) : result unit * neo4j :=
  let (r, g1) := _create_nodes elements g in
  match r with
  | inl e => (inl (GraphBuilderError e), g1)
  | inr _ =>
      let (r', g2) := _create_relationships elements g1 in
      (as_GraphBuilderError r', g2)
  end.

(** ** main.py *)

(** The three stores the pipeline writes. *)
Record world := World {
  snapshot : file;
  table : gmap Z row;
  graph : neo4j
}.

(** The calls made by [main]. *)
Inductive op : Type :=
| Validate | Init | Geocode | Download | Process
| JsonGet | JsonSave | SqlCleanup | SqlSave | GraphCleanup | GraphBuild.

(** The [except] clauses of [main], in order. *)
Inductive report : Type :=
| ConfigNotValid | GeocodingErr | OsmApiErr | DatabaseErr | GraphBuilderErr
| UnexpectedErr.

(** What a run leaves behind besides the stores: the calls it made, the
    exceptions they raised, and the errors it logged. *)
Inductive event : Type :=
| Call (o : op)
| Raised (o : op) (e : exn)
| LogError (r : report) (e : exn).

(** A computation of [main]: it may raise, changes the stores and appends
    to the trace. *)
Definition M (A : Type) : Type := world → result A * world * list event.

#[global] Instance M_ret : MRet M := λ A x w, (inr x, w, []).

#[global] Instance M_bind : MBind M := λ A B f m w,
  match m w with
  | (inl e, w', t) => (inl e, w', t)
  | (inr x, w', t) => let '(r, w'', t') := f x w' in (r, w'', t ++ t')
  end.

Definition pure_call {A} (r : result A) : world → result A * world :=
  λ w, (r, w).

Definition on_snapshot {A} (c : file → result A * file)
  : world → result A * world :=
  λ w, let (r, f) := c (snapshot w) in
       (r, {| snapshot := f; table := table w; graph := graph w |}).

Definition on_table {A} (c : gmap Z row → result A * gmap Z row)
  : world → result A * world :=
  λ w, let (r, t) := c (table w) in
       (r, {| snapshot := snapshot w; table := t; graph := graph w |}).

Definition on_graph {A} (c : neo4j → result A * neo4j)
  : world → result A * world :=
  λ w, let (r, g) := c (graph w) in
       (r, {| snapshot := snapshot w; table := table w; graph := g |}).

(** A call of [main], recorded in the trace with the exception it raises. *)
Definition invoke {A} (o : op) (c : world → result A * world) : M A :=
  λ w, let (r, w') := c w in
       (r, w', Call o :: match r with inl e => [Raised o e] | inr _ => [] end).

(** The constructors of the six components. *)
Definition init : result unit :=
  match init_fault E with Some e => raise e | None => mret () end.

(** Lines 68-75 of [main]: clear and load the table, then the graph. *)
Definition sync (processed_data : list element) : M unit :=
  invoke SqlCleanup (on_table SqlDataStorage_cleanup);;
  invoke SqlSave (on_table (SqlDataStorage_save_data processed_data));;
  invoke GraphCleanup (on_graph GraphBuilder_cleanup);;
  invoke GraphBuild
    (on_graph (GraphBuilder_build_graph processed_data
                 (neo4j_graph_name (NEO4J_CONFIG (config E))))).

(** The [try] block of [main]. *)
Definition main_body : M unit :=
  invoke Validate (pure_call (validate (config E)));;
  invoke Init (pure_call init);;
  bbox ← invoke Geocode
           (pure_call (get_region_bbox (default "" (REGION (config E)))));
  raw_data ← invoke Download (pure_call (download_data bbox));
  processed_data ← invoke Process (pure_call (process_data raw_data));
  old_data ← invoke JsonGet
               (λ w, (JsonDataStorage_get_data (snapshot w), w));
  if negb (is_data_changed processed_data old_data) then mret ()
  else
    invoke JsonSave (on_snapshot (JsonDataStorage_save_data processed_data));;
    sync processed_data.

(** Which [except] clause catches an exception. *)
Definition report_of (e : exn) : report :=
  match e with
  | ConfigError => ConfigNotValid
  | GeocodingError _ => GeocodingErr
  | OsmApiError _ => OsmApiErr
  | DatabaseError _ => DatabaseErr
  | GraphBuilderError _ => GraphBuilderErr
  | LibraryError _ => UnexpectedErr
  end.

(** [main]: every exception is logged by its clause and the run returns. *)
Definition main : M unit :=
  λ w, match main_body w with
       | (inl e, w', t) => (inr (), w', t ++ [LogError (report_of e) e])
       | (inr x, w', t) => (inr x, w', t)
       end.


(** ** Vocabulary of the properties *)

(** The value stored under a key of the connection map. *)
Fixpoint map_get (k : coord) (m : connection_map) : gset Z :=
  match m with
  | [] => ∅
  | (k', ids) :: m' => if decide (k = k') then ids else map_get k m'
  end.

(** The first and the last coordinate of a record. *)
Definition endpoints (e : element) : list coord :=
  match e_geometry e, last (e_geometry e) with
  | p :: _, Some q => [(lat p, lon p); (lat q, lon q)]
  | _, _ => []
  end.

(** Two records share an endpoint: an exactly equal first-or-last
    coordinate. *)
Definition share_endpoint (a b : element) : Prop :=
  ∃ k, k ∈ endpoints a ∧ k ∈ endpoints b.

(** A relationship joins the unordered pair of ids [{i, j}]. *)
Definition joins (r : relationship) (i j : Z) : Prop :=
  (rel_from r = i ∧ rel_to r = j) ∨ (rel_from r = j ∧ rel_to r = i).

(** Both ends of a relationship lie among the given ids. *)
Definition within (ids : list Z) (r : relationship) : Prop :=
  rel_from r ∈ ids ∧ rel_to r ∈ ids.

(** The calls that clear or load a sink. *)
Definition sink_op (o : op) : Prop :=
  o ∈ [SqlCleanup; SqlSave; GraphCleanup; GraphBuild].



(** A processed element is the normalisation of a raw "way". *)
Definition normalises (el : raw_element) (e : element) : Prop :=
  r_type el = Some "way"
  ∧ r_id el = Some (e_id e)
  ∧ e_geometry e = default [] (r_geometry el)
  ∧ e_name e = default ∅ (r_tags el) !! "name".

#[global] Instance within_dec ids r : Decision (within ids r).
Proof. unfold within. apply _. Defined.

#[global] Instance joins_dec r i j : Decision (joins r i j).
Proof. unfold joins. apply _. Defined.

(** The number of unordered pairs of [n] things. *)
Fixpoint choose2 (n : nat) : nat :=
  match n with
  | O => O
  | S n' => (n' + choose2 n')%nat
  end.

(** The fifteen settings [Config.validate] looks at, in the order it does. *)
Definition all_settings (c : Config) : list (option string) :=
  [REGION c;
   sql_host (SQL_CONFIG c); sql_port (SQL_CONFIG c); sql_name (SQL_CONFIG c);
   sql_user (SQL_CONFIG c); sql_password (SQL_CONFIG c);
   sql_table (SQL_CONFIG c);
   neo4j_uri (NEO4J_CONFIG c); neo4j_user (NEO4J_CONFIG c);
   neo4j_password (NEO4J_CONFIG c); neo4j_graph_name (NEO4J_CONFIG c);
   LOGGER_CONFIG_PATH c; OUTPUT_DIR_PATH c; OUTPUT_FILE_NAME c;
   GEOCODING_AGENT c; OSM_API_URL c].

(** A raw element on which [process_data] stops: it has no "type", or it is
    a "way" without "id". *)
Definition unusable (el : raw_element) : Prop :=
  r_type el = None ∨ (r_type el = Some "way" ∧ r_id el = None).

(** The calls recorded in a trace, in order. *)
Definition calls_of (t : list event) : list op :=
  omap (λ ev, match ev with Call o => Some o | _ => None end) t.

(** The calls of a complete run. *)
Definition pipeline : list op :=
  [Validate; Init; Geocode; Download; Process; JsonGet; JsonSave;
   SqlCleanup; SqlSave; GraphCleanup; GraphBuild].

(** The row [save_data] writes for an item. *)
Definition row_of (item : element) : row :=
  (e_name item, _create_linestring (e_geometry item)).

(** The table after upserting the items in order. *)
Definition upserted (data : list element) (t : gmap Z row) : gmap Z row :=
  foldl (λ t item, <[ e_id item := row_of item ]> t) t data.

(** A graph whose relationships go both ways between two different stored
    nodes. *)
Definition well_formed (g : neo4j) : Prop :=
  ∀ a b, (a, b) ∈ rels g →
         (b, a) ∈ rels g ∧ a ≠ b
         ∧ is_Some (nodes g !! a) ∧ is_Some (nodes g !! b).

End Pipeline.

(** * Sample data

    Coordinates in units of 1e-7 degree, as OpenStreetMap stores them. *)

Definition pt (c : Z * Z) : @point Z := {| lat := c.1; lon := c.2 |}.

Definition way_record (i : Z) (geometry : list (Z * Z)) : @element Z :=
  {| e_id := i; e_geometry := pt <$> geometry; e_name := None |}.

(** Three ways that meet at (1,1) and nowhere else. *)
Definition junction : list (@element Z) :=
  [way_record 1 [(0, 0); (1, 1)];
   way_record 2 [(1, 1); (2, 2)];
   way_record 3 [(3, 3); (1, 1)]].

(** Two ways with the same two endpoints, and a way of a single point. *)
Definition loop_pair : list (@element Z) :=
  [way_record 1 [(0, 0); (5, 5); (1, 1)];
   way_record 2 [(1, 1); (0, 0)];
   way_record 3 [(1, 1)]].

Definition raw_way (i : Z) (geometry : option (list (Z * Z)))
  : @raw_element Z :=
  {| r_type := Some "way"; r_id := Some i;
     r_geometry := (λ g : list (Z * Z), pt <$> g) <$> geometry;
     r_tags := Some {[ "name" := "Wisla" ]} |}.

(** A response with two connected ways, a way without geometry and a
    relation. *)
Definition sample_response : @raw_data Z :=
  {| raw_elements := Some
       [raw_way 1 (Some [(0, 0); (1, 1)]);
        {| r_type := Some "relation"; r_id := Some 9; r_geometry := None;
           r_tags := None |};
        raw_way 2 (Some [(1, 1); (2, 2)]);
        raw_way 7 None] |}.

Definition connected_response : @raw_data Z :=
  {| raw_elements := Some
       [raw_way 1 (Some [(0, 0); (1, 1)]);
        raw_way 2 (Some [(1, 1); (2, 2)])] |}.

Definition empty_response : @raw_data Z := {| raw_elements := Some [] |}.

Definition sample_config : Config :=
  {| REGION := Some "Mazowieckie";
     SQL_CONFIG := {| sql_host := Some "localhost"; sql_port := Some "5432";
                      sql_name := Some "rivers"; sql_user := Some "postgres";
                      sql_password := Some "secret";
                      sql_table := Some "rivers" |};
     NEO4J_CONFIG := {| neo4j_uri := Some "bolt://localhost:7687";
                        neo4j_user := Some "neo4j";
                        neo4j_password := Some "secret";
                        neo4j_graph_name := Some "rivers" |};
     LOGGER_CONFIG_PATH := Some "logging.conf";
     OUTPUT_DIR_PATH := Some "out";
     OUTPUT_FILE_NAME := Some "rivers.json";
     GEOCODING_AGENT := Some "river-data-collector";
     OSM_API_URL := Some "https://overpass-api.de/api/interpreter" |}.

(** Collaborators that answer with the given response and fail only where
    told: on opening the snapshot file for writing, on [TRUNCATE]. *)
Definition sample_env (response : @raw_data Z)
  (open_write truncate : option lib_exn) : @env Z :=
  {| config := sample_config;
     init_fault := None;
     geocode := λ _, Located ["51.0"; "53.5"; "19.2"; "23.1"];
     overpass := λ _ _, inr response;
     open_read_fault := None;
     open_write_fault := open_write;
     dump_fault := None;
     truncate_connect_fault := None;
     truncate_fault := truncate;
     insert_connect_fault := None;
     insert_fault := λ _ _ _, None;
     delete_fault := None;
     nodes_fault := None;
     relationships_fault := None |}.

(** No snapshot file, an empty table and an empty graph. *)
Definition fresh_world : @world Z :=
  {| snapshot := NoFile; table := ∅; graph := Neo4j ∅ [] |}.

(** Collaborators that locate the region as told, answer with the given
    response, and fail only where told: on the dump of the snapshot, on
    connecting to PostgreSQL, on the insert of some ids. *)
Definition custom_env (cfg : Config) (location : geocode_outcome)
  (response : @raw_data Z) (dump connect : option lib_exn)
  (insert : Z → option lib_exn) : @env Z :=
  {| config := cfg;
     init_fault := None;
     geocode := λ _, location;
     overpass := λ _ _, inr response;
     open_read_fault := None;
     open_write_fault := None;
     dump_fault := dump;
     truncate_connect_fault := connect;
     truncate_fault := None;
     insert_connect_fault := connect;
     insert_fault := λ i _ _, insert i;
     delete_fault := None;
     nodes_fault := None;
     relationships_fault := None |}.

Definition sample_location : geocode_outcome :=
  Located ["51.0"; "53.5"; "19.2"; "23.1"].

(** The sample settings with REGION left unset. *)
Definition no_region_config : Config :=
  {| REGION := None;
     SQL_CONFIG := SQL_CONFIG sample_config;
     NEO4J_CONFIG := NEO4J_CONFIG sample_config;
     LOGGER_CONFIG_PATH := LOGGER_CONFIG_PATH sample_config;
     OUTPUT_DIR_PATH := OUTPUT_DIR_PATH sample_config;
     OUTPUT_FILE_NAME := OUTPUT_FILE_NAME sample_config;
     GEOCODING_AGENT := GEOCODING_AGENT sample_config;
     OSM_API_URL := OSM_API_URL sample_config |}.

(** Two connected ways and a way away from both. *)
Definition with_island : list (@element Z) :=
  [way_record 1 [(0, 0); (1, 1)];
   way_record 2 [(1, 1); (2, 2)];
   way_record 3 [(8, 8); (9, 9)]].

(** A way and a record without coordinates. *)
Definition with_empty : list (@element Z) :=
  [way_record 1 [(0, 0); (1, 1)]; way_record 7 []].

(** A response whose second element has no "type". *)
Definition untyped_response : @raw_data Z :=
  {| raw_elements := Some
       [raw_way 1 (Some [(0, 0); (1, 1)]);
        {| r_type := None; r_id := Some 4; r_geometry := None;
           r_tags := None |}] |}.

(** * Properties *)

Section Properties.

Context {num : Type} `{EqDecision num}.
Variable set_list : gset Z → list Z.
Hypothesis set_list_perm : ∀ s, set_list s ≡ₚ elements s.
Variable E : @env num.
Variable fmt : num → string.

Local Abbreviation point := (@point num).
Local Abbreviation element := (@element num).
Local Abbreviation raw_element := (@raw_element num).
Local Abbreviation raw_data := (@raw_data num).
Local Abbreviation coord := (@coord num).
Local Abbreviation connection_map := (@connection_map num).
Local Abbreviation file := (@file num).
Local Abbreviation world := (@world num).
Local Abbreviation M := (@M num).

Local Abbreviation _generate_relationships :=
  (_generate_relationships set_list).
Local Abbreviation relationships_of := (relationships_of set_list).
Local Abbreviation get_region_bbox := (get_region_bbox E).
Local Abbreviation download_data := (download_data E).
Local Abbreviation JsonDataStorage_save_data := (JsonDataStorage_save_data E).
Local Abbreviation JsonDataStorage_get_data := (JsonDataStorage_get_data E).
Local Abbreviation save_loop := (save_loop E fmt).
Local Abbreviation SqlDataStorage_save_data :=
  (SqlDataStorage_save_data E fmt).
Local Abbreviation SqlDataStorage_cleanup := (SqlDataStorage_cleanup E).
Local Abbreviation GraphBuilder_cleanup := (GraphBuilder_cleanup E).
Local Abbreviation _create_nodes := (_create_nodes E).
Local Abbreviation _create_relationships :=
  (_create_relationships set_list E).
Local Abbreviation GraphBuilder_build_graph :=
  (GraphBuilder_build_graph set_list E).
Local Abbreviation init := (init E).
Local Abbreviation sync := (sync set_list E fmt).
Local Abbreviation main_body := (main_body set_list E fmt).
Local Abbreviation main := (main set_list E fmt).
Local Abbreviation row_of := (row_of fmt).
Local Abbreviation upserted := (upserted fmt).
Local Abbreviation unusable := (@unusable num).

(** Unfolds the operations of the [result] monad. *)
Ltac simpl_result :=
  unfold mret, result_ret, mbind, result_bind, raise, getitem in *;
  simpl in *.

(** ** The connection map *)

Lemma map_get_add k i k' (m : connection_map) :
  map_get k' (map_add k i m)
  = if decide (k' = k) then {[ i ]} ∪ map_get k m else map_get k' m.
Proof using Type.
  clear set_list_perm.
  induction m as [|[k0 ids] m IH]; simpl.
  - repeat case_decide; subst; try done. by rewrite (right_id_L ∅ (∪)).
  - destruct (decide (k = k0)) as [->|Hk]; simpl.
    + repeat case_decide; subst; done.
    + rewrite IH. repeat case_decide; subst; done.
Qed.

Lemma map_add_key_in k i k' (m : connection_map) :
  k' ∈ (map_add k i m).*1 → k' = k ∨ k' ∈ m.*1.
Proof.
  induction m as [|[k0 ids] m IH]; simpl.
  - rewrite list_elem_of_singleton. auto.
  - case_decide; simpl; rewrite !elem_of_cons; [tauto|].
    intros [?|?]; [tauto|]. destruct IH; auto.
Qed.

Lemma map_add_keys k i (m : connection_map) :
  NoDup m.*1 → NoDup (map_add k i m).*1.
Proof.
  induction m as [|[k0 ids] m IH]; simpl; intros Hnd.
  - apply NoDup_singleton.
  - case_decide; simpl; [done|].
    apply NoDup_cons in Hnd as [Hnin Hnd]. apply NoDup_cons. split; [|auto].
    intros [?|?]%map_add_key_in; [congruence|done].
Qed.

Lemma map_get_not_key k (m : connection_map) : k ∉ m.*1 → map_get k m = ∅.
Proof.
  induction m as [|[k0 ids] m IH]; simpl; [done|].
  rewrite not_elem_of_cons. intros [? ?]. case_decide; [done|auto].
Qed.

Lemma map_get_entry k ids (m : connection_map) :
  NoDup m.*1 → (k, ids) ∈ m → map_get k m = ids.
Proof.
  induction m as [|[k0 ids0] m IH]; simpl.
  - by intros _ ?%elem_of_nil.
  - intros [Hnin Hnd]%NoDup_cons [Heq|Hin]%elem_of_cons.
    + simplify_eq. by rewrite decide_True.
    + case_decide; [|auto]. subst. destruct Hnin.
      apply list_elem_of_fmap. by exists (k0, ids).
Qed.


Lemma endpoints_points (e : element) :
  e_geometry e ≠ [] →
  ∃ s t, start_point e = inr s ∧ end_point e = inr t ∧ endpoints e = [s; t].
Proof.
  unfold start_point, end_point, endpoints. intros Hne.
  destruct (e_geometry e) as [|p g] eqn:Hg; [done|].
  destruct (last (p :: g)) as [q|] eqn:Hl.
  - by exists (lat p, lon p), (lat q, lon q).
  - by apply last_None in Hl.
Qed.

Lemma build_loop_returns (es : list element) m :
  (∀ e, e ∈ es → e_geometry e ≠ []) → ∃ m', build_loop es m = inr m'.
Proof.
  revert m. induction es as [|e es IH]; simpl; intros m Hne; [by eexists|].
  destruct (endpoints_points e) as (s & t & -> & -> & _).
  { apply Hne. left. }
  simpl. apply IH. intros e' He'. apply Hne. by right.
Qed.

Lemma build_loop_keys (es : list element) m m' :
  build_loop es m = inr m' → NoDup m.*1 → NoDup m'.*1.
Proof.
  revert m. induction es as [|e es IH]; simpl; intros m Hb Hnd.
  - simpl_result. by simplify_eq.
  - destruct (start_point e) as [?|s]; [done|].
    destruct (end_point e) as [?|t]; [done|]. simpl_result.
    eapply IH; [done|]. by do 2 apply map_add_keys.
Qed.

(** The set under a key holds the ids of the records with that endpoint. *)
Lemma build_loop_get (es : list element) m m' k i :
  build_loop es m = inr m' →
  i ∈ map_get k m' ↔
  i ∈ map_get k m ∨ ∃ e, e ∈ es ∧ e_id e = i ∧ k ∈ endpoints e.
Proof using Type.
  clear set_list_perm.
  revert m. induction es as [|e es IH]; simpl; intros m Hb.
  - simpl_result. simplify_eq. split; [auto|].
    intros [?|(e & ?%elem_of_nil & _)]; done.
  - pose proof (endpoints_points e) as Hp.
    destruct (start_point e) as [?|s] eqn:Hs; [done|].
    destruct (end_point e) as [?|t] eqn:Ht; [done|]. simpl_result.
    destruct Hp as (s' & t' & ? & ? & Hends).
    { unfold start_point in Hs. by destruct (e_geometry e). }
    simplify_eq. rewrite (IH _ Hb), !map_get_add.
    match goal with
    | |- ?X ∨ _ ↔ _ =>
        assert (X ↔ i ∈ map_get k m ∨ (i = e_id e ∧ (k = s' ∨ k = t'))) as ->
    end.
    { repeat case_decide; subst; rewrite ?elem_of_union, ?elem_of_singleton;
        naive_solver. }
    split.
    + intros [[Hi|(-> & Hk)]|(e' & He' & ? & ?)]; [by left|..].
      * right. exists e. rewrite Hends, !elem_of_cons. naive_solver.
      * right. exists e'. rewrite elem_of_cons. naive_solver.
    + intros [Hi|(e' & [->|He']%elem_of_cons & <- & Hk)]; [by left; left|..].
      * left. right. rewrite Hends, !elem_of_cons, elem_of_nil in Hk.
        naive_solver.
      * right. by exists e'.
Qed.

(** ** The pairs of a list and the generated relationships *)

Lemma elem_of_pairs_ends r l :
  r ∈ pairs l → rel_from r ∈ l ∧ rel_to r ∈ l.
Proof.
  induction l as [|x l IH]; simpl; [by intros ?%elem_of_nil|].
  rewrite elem_of_app, list_elem_of_fmap.
  intros [(y & -> & Hy)|Hr]; simpl.
  - split; [left|by right].
  - destruct (IH Hr). split; by right.
Qed.

Lemma pairs_distinct r l :
  NoDup l → r ∈ pairs l → rel_from r ≠ rel_to r.
Proof.
  induction l as [|x l IH]; simpl; [by intros _ ?%elem_of_nil|].
  intros [Hx Hnd]%NoDup_cons. rewrite elem_of_app, list_elem_of_fmap.
  intros [(y & -> & Hy)|Hr]; simpl; [congruence|auto].
Qed.

Lemma pairs_complete x y l :
  x ∈ l → y ∈ l → x ≠ y → Rel x y ∈ pairs l ∨ Rel y x ∈ pairs l.
Proof.
  induction l as [|z l IH]; simpl; [by intros ?%elem_of_nil|].
  rewrite !elem_of_cons, !elem_of_app, !list_elem_of_fmap.
  intros [->|Hx] [->|Hy] Hne; [done| | |].
  - left. left. by exists y.
  - right. left. by exists x.
  - destruct (IH Hx Hy Hne); auto.
Qed.

Lemma elem_of_set_list i ids : i ∈ set_list ids ↔ i ∈ ids.
Proof. by rewrite set_list_perm, elem_of_elements. Qed.

Lemma NoDup_set_list ids : NoDup (set_list ids).
Proof. rewrite set_list_perm. apply NoDup_elements. Qed.

Lemma length_set_list ids : length (set_list ids) = size ids.
Proof. by rewrite set_list_perm. Qed.

Lemma pairs_short l : (length l ≤ 1)%nat → pairs l = [].
Proof. destruct l as [|x [|y l]]; simpl; [done..|lia]. Qed.

(** The length test of the loop only skips sets that have no pair. *)
Lemma generate_relationships_eq (m : connection_map) :
  _generate_relationships m = m ≫= λ kv, pairs (set_list kv.2).
Proof.
  induction m as [|[k ids] m IH]; simpl; [done|]. rewrite IH. f_equal.
  case_bool_decide; [done|]. symmetry. apply pairs_short.
  rewrite length_set_list. lia.
Qed.

Lemma elem_of_generate_relationships r (m : connection_map) :
  r ∈ _generate_relationships m ↔
  ∃ k ids, (k, ids) ∈ m ∧ r ∈ pairs (set_list ids).
Proof.
  rewrite generate_relationships_eq, list_elem_of_bind. split.
  - intros ([k ids] & ? & ?). by exists k, ids.
  - intros (k & ids & ? & ?). by exists (k, ids).
Qed.


Lemma generate_relationships_cons k ids (m : connection_map) :
  _generate_relationships ((k, ids) :: m)
  = pairs (set_list ids) ++ _generate_relationships m.
Proof. by rewrite !generate_relationships_eq. Qed.

Lemma map_get_elem k i (m : connection_map) : i ∈ map_get k m → (k, map_get k m) ∈ m.
Proof.
  induction m as [|[k0 ids] m IH]; simpl; [by intros ?%elem_of_empty|].
  case_decide; subst; [left|right; auto].
Qed.

(** Two ids are joined exactly when some key holds both. *)
Lemma joined_iff (m : connection_map) i j :
  NoDup m.*1 →
  (∃ r, r ∈ _generate_relationships m ∧ joins r i j) ↔
  i ≠ j ∧ ∃ k, i ∈ map_get k m ∧ j ∈ map_get k m.
Proof.
  intros Hnd. split.
  - intros (r & (k & ids & Hin & Hr)%elem_of_generate_relationships & Hj).
    pose proof (pairs_distinct _ _ (NoDup_set_list ids) Hr) as Hne.
    apply elem_of_pairs_ends in Hr as [Hf Ht].
    apply elem_of_set_list in Hf, Ht.
    rewrite <-(map_get_entry _ _ _ Hnd Hin) in Hf, Ht.
    destruct Hj as [[<- <-]|[<- <-]]; (split; [done|by exists k]).
  - intros (Hne & k & Hi & Hj).
    pose proof (map_get_elem _ _ _ Hi) as Hin.
    destruct (pairs_complete i j (set_list (map_get k m))) as [Hr|Hr];
      [by apply elem_of_set_list..|done| |].
    + exists (Rel i j). split; [|by left].
      apply elem_of_generate_relationships. eauto.
    + exists (Rel j i). split; [|by right].
      apply elem_of_generate_relationships. eauto.
Qed.

Lemma relationships_of_returns (elements : list element) :
  (∀ e, e ∈ elements → e_geometry e ≠ []) →
  ∃ m, relationships_of elements = inr (_generate_relationships m)
       ∧ NoDup m.*1
       ∧ ∀ k i, i ∈ map_get k m ↔
                ∃ e, e ∈ elements ∧ e_id e = i ∧ k ∈ endpoints e.
Proof.
  intros Hne. destruct (build_loop_returns elements [] Hne) as [m Hm].
  exists m. unfold relationships_of, _build_connection_map. rewrite Hm.
  split; [done|]. split.
  - eapply build_loop_keys; [done|]. apply NoDup_nil_2.
  - intros k i. rewrite (build_loop_get _ _ _ _ _ Hm). simpl.
    rewrite elem_of_empty. tauto.
Qed.

Lemma id_determines (l : list element) a b :
  NoDup (e_id <$> l) → a ∈ l → b ∈ l → e_id a = e_id b → a = b.
Proof.
  induction l as [|x l IH]; simpl; [by intros _ ?%elem_of_nil|].
  intros [Hx Hnd]%NoDup_cons [->|Ha]%elem_of_cons [->|Hb]%elem_of_cons Heq;
    [done| | |by apply IH].
  - destruct Hx. rewrite Heq. by apply list_elem_of_fmap_2.
  - destruct Hx. rewrite <-Heq. by apply list_elem_of_fmap_2.
Qed.

(** ** Counting the relationships among given ids *)

Lemma choose2_double n : (2 * choose2 n = n * (n - 1))%nat.
Proof. induction n as [|n IH]; simpl; [done|]. nia. Qed.

Lemma choose2_div n : choose2 n = (n * (n - 1) / 2)%nat.
Proof.
  rewrite <-choose2_double, Nat.mul_comm, Nat.div_mul; [done|lia].
Qed.

Lemma choose2_small n : (n ≤ 1)%nat → choose2 n = O.
Proof. destruct n as [|[|n]]; simpl; lia. Qed.

Lemma length_filter_within_head ids x l :
  length (filter (within ids) (Rel x <$> l))
  = if decide (x ∈ ids) then length (filter (.∈ ids) l) else O.
Proof.
  induction l as [|y l IH]; simpl; [by case_decide|].
  rewrite !filter_cons. unfold within at 1. simpl.
  repeat case_decide; simpl; rewrite ?IH; try case_decide; naive_solver.
Qed.

Lemma length_filter_within_pairs ids l :
  length (filter (within ids) (pairs l))
  = choose2 (length (filter (.∈ ids) l)).
Proof.
  induction l as [|x l IH]; simpl; [done|].
  rewrite filter_app, length_app, length_filter_within_head, IH, filter_cons.
  by case_decide.
Qed.

Lemma set_list_empty : set_list ∅ = [].
Proof.
  apply Permutation_nil_r. by rewrite set_list_perm, elements_empty.
Qed.

(** Only the set under [c] contributes when no other key holds two of the
    given ids. *)
Lemma length_filter_within_generate ids c (m : connection_map) :
  NoDup m.*1 →
  (∀ k s, (k, s) ∈ m → k ≠ c →
          (length (filter (.∈ ids) (set_list s)) ≤ 1)%nat) →
  length (filter (within ids) (_generate_relationships m))
  = choose2 (length (filter (.∈ ids) (set_list (map_get c m)))).
Proof.
  induction m as [|[k s] m IH]; intros Hnd Hone.
  - simpl. by rewrite set_list_empty.
  - apply NoDup_cons in Hnd as [Hk Hnd].
    rewrite generate_relationships_cons, filter_app, length_app,
      length_filter_within_pairs, IH; [|done|].
    2:{ intros k' s' Hin. apply Hone. by right. }
    simpl. case_decide as Hc.
    + subst k. rewrite map_get_not_key, set_list_empty by done. simpl. lia.
    + rewrite (choose2_small (length _)); [done|].
      apply (Hone k); [left|congruence].
Qed.

Lemma NoDup_length_le_1 (l : list Z) :
  NoDup l → (∀ x y, x ∈ l → y ∈ l → x = y) → (length l ≤ 1)%nat.
Proof.
  destruct l as [|x [|y l]]; simpl; [lia..|].
  intros [Hx _]%NoDup_cons Heq. destruct Hx.
  rewrite (Heq x y); [left|left|right; left].
Qed.


(** ** The relationships of a collection *)

(** C3. For records with non-empty geometries, [_build_connection_map] and
    [_generate_relationships] return, and no generated relationship has
    equal "from" and "to" ids; a record whose start and end coordinates
    coincide is no exception, and the ids need not even be distinct. *)
Theorem no_self_edges (elements : list element) :
  (∀ e, e ∈ elements → e_geometry e ≠ []) →
  ∃ relationships,
    relationships_of elements = inr relationships
    ∧ ∀ r, r ∈ relationships → rel_from r ≠ rel_to r.
Proof.
  intros Hne. destruct (relationships_of_returns elements Hne) as (m & -> & _).
  eexists. split; [done|].
  intros r (k & ids & _ & Hr)%elem_of_generate_relationships.
  eapply pairs_distinct; [apply NoDup_set_list|done].
Qed.

(** C2. For records with distinct ids and non-empty geometries, two records
    with different ids are joined by some generated relationship exactly
    when a first-or-last coordinate of one equals a first-or-last coordinate
    of the other; and for a group of records that all have the coordinate
    [c] as an endpoint and pairwise share no other endpoint coordinate,
    every two of them are joined and the relationships among their ids
    number exactly k(k-1)/2, k being the size of the group. *)
Theorem endpoint_grouping (elements : list element) :
  NoDup (e_id <$> elements) →
  (∀ e, e ∈ elements → e_geometry e ≠ []) →
  ∃ relationships,
    relationships_of elements = inr relationships
    ∧ (∀ a b, a ∈ elements → b ∈ elements → e_id a ≠ e_id b →
         (∃ r, r ∈ relationships ∧ joins r (e_id a) (e_id b))
         ↔ share_endpoint a b)
    ∧ (∀ c group,
         NoDup group → group ⊆ elements →
         (∀ a, a ∈ group → c ∈ endpoints a) →
         (∀ a b k, a ∈ group → b ∈ group → a ≠ b →
                   k ∈ endpoints a → k ∈ endpoints b → k = c) →
         (∀ a b, a ∈ group → b ∈ group → a ≠ b →
                 ∃ r, r ∈ relationships ∧ joins r (e_id a) (e_id b))
         ∧ length (filter (within (e_id <$> group)) relationships)
           = (length group * (length group - 1) / 2)%nat).
Proof.
  intros Hids Hne.
  destruct (relationships_of_returns elements Hne) as (m & -> & Hnd & Hget).
  eexists. split; [done|].
  assert (Hpair : ∀ a b, a ∈ elements → b ∈ elements → e_id a ≠ e_id b →
            (∃ r, r ∈ _generate_relationships m ∧ joins r (e_id a) (e_id b))
            ↔ share_endpoint a b).
  { intros a b Ha Hb Hab. rewrite (joined_iff _ _ _ Hnd). split.
    - intros (_ & k & (a' & Ha' & Hia & Hka)%Hget & (b' & Hb' & Hib & Hkb)%Hget).
      rewrite (id_determines elements a' a) in Hka by done.
      rewrite (id_determines elements b' b) in Hkb by done.
      by exists k.
    - intros (k & Hka & Hkb). split; [done|]. exists k.
      split; apply Hget; eauto. }
  split; [done|].
  intros c group Hgnd Hsub Hc Honly. split.
  - intros a b Ha Hb Hab. apply Hpair; [auto..| |by exists c; auto].
    intros Heq. apply Hab. apply (id_determines elements); auto.
  - rewrite <-choose2_div.
    assert (Hone : ∀ k s, (k, s) ∈ m → k ≠ c →
              (length (filter (.∈ e_id <$> group) (set_list s)) ≤ 1)%nat).
    { intros k s Hin Hk. apply NoDup_length_le_1.
      { apply NoDup_filter, NoDup_set_list. }
      intros x y [(a & -> & Ha)%list_elem_of_fmap Hxs]%list_elem_of_filter
                 [(b & -> & Hb)%list_elem_of_fmap Hys]%list_elem_of_filter.
      apply elem_of_set_list in Hxs, Hys.
      rewrite <-(map_get_entry _ _ _ Hnd Hin) in Hxs, Hys.
      apply Hget in Hxs as (a' & Ha' & Hia & Hka).
      apply Hget in Hys as (b' & Hb' & Hib & Hkb).
      rewrite (id_determines elements a' a) in Hka by auto.
      rewrite (id_determines elements b' b) in Hkb by auto.
      destruct (decide (a = b)) as [->|Hab]; [done|].
      destruct Hk. eauto. }
    rewrite (length_filter_within_generate _ c) by done.
    f_equal. rewrite <-(length_fmap e_id group). apply Permutation_length.
    apply NoDup_Permutation.
    + apply NoDup_filter, NoDup_set_list.
    + apply NoDup_fmap_2_strong; [|done].
      intros a b Ha Hb. apply (id_determines elements); auto.
    + intros i. rewrite list_elem_of_filter, elem_of_set_list, Hget. split.
      * by intros [? _].
      * intros Hi. split; [done|].
        apply list_elem_of_fmap in Hi as (a & -> & Ha). exists a. auto.
Qed.


(** ** The relationships stored in Neo4j *)

Lemma elem_of_merge_rel x a b rs :
  x ∈ merge_rel a b rs ↔ x = (a, b) ∨ x ∈ rs.
Proof.
  unfold merge_rel. case_decide.
  - split; [auto|]. by intros [->|?].
  - rewrite elem_of_app, list_elem_of_singleton. tauto.
Qed.

Lemma NoDup_merge_rel a b rs : NoDup rs → NoDup (merge_rel a b rs).
Proof.
  unfold merge_rel. intros Hnd. case_decide; [done|].
  apply NoDup_app. split; [done|]. split; [|apply NoDup_singleton].
  by intros x Hx ->%list_elem_of_singleton.
Qed.

Lemma connect_nodes g r : nodes (connect g r) = nodes g.
Proof. unfold connect. by case_decide. Qed.

Lemma foldl_connect_nodes rs g : nodes (foldl connect g rs) = nodes g.
Proof.
  revert g. induction rs as [|r rs IH]; intros g; simpl; [done|].
  by rewrite IH, connect_nodes.
Qed.

Lemma foldl_connect_NoDup rs g :
  NoDup (rels g) → NoDup (rels (foldl connect g rs)).
Proof.
  revert g. induction rs as [|r rs IH]; intros g Hnd; simpl; [done|].
  apply IH. unfold connect. case_decide; [|done]. simpl.
  by do 2 apply NoDup_merge_rel.
Qed.

Lemma foldl_connect_keeps rs g x :
  x ∈ rels g → x ∈ rels (foldl connect g rs).
Proof.
  revert g. induction rs as [|r rs IH]; intros g Hx; simpl; [done|].
  apply IH. unfold connect. case_decide; [|done]. simpl.
  rewrite !elem_of_merge_rel. auto.
Qed.

(** A relationship between two stored nodes is stored in both directions. *)
Lemma foldl_connect_both rs g r :
  r ∈ rs →
  is_Some (nodes g !! rel_from r) → is_Some (nodes g !! rel_to r) →
  (rel_from r, rel_to r) ∈ rels (foldl connect g rs)
  ∧ (rel_to r, rel_from r) ∈ rels (foldl connect g rs).
Proof.
  revert g. induction rs as [|r' rs IH]; intros g Hr Hf Ht; simpl.
  - by apply elem_of_nil in Hr.
  - apply elem_of_cons in Hr as [<-|Hr].
    + split; apply foldl_connect_keeps; unfold connect;
        rewrite decide_True by done; simpl; rewrite !elem_of_merge_rel; auto.
    + apply IH; rewrite ?connect_nodes; done.
Qed.

(** Whatever is stored comes from the old graph or from a relationship. *)
Lemma foldl_connect_origin rs g x :
  x ∈ rels (foldl connect g rs) →
  x ∈ rels g ∨ ∃ r, r ∈ rs ∧ joins r x.1 x.2.
Proof.
  revert g. induction rs as [|r rs IH]; intros g; simpl; [auto|].
  intros [Hx|(r' & Hr' & Hj)]%IH.
  - unfold connect in Hx. case_decide; [|by left]. simpl in Hx.
    rewrite !elem_of_merge_rel in Hx. destruct Hx as [->|[->|Hx]].
    + right. exists r. split; [left|]. by right.
    + right. exists r. split; [left|]. by left.
    + by left.
  - right. exists r'. split; [by right|done].
Qed.

Lemma foldl_merge_node_rels (es : list element) g : rels (foldl merge_node g es) = rels g.
Proof.
  revert g. induction es as [|e es IH]; intros g; simpl; [done|].
  by rewrite IH.
Qed.

Lemma foldl_merge_node_lookup (es : list element) g i :
  is_Some (nodes g !! i) ∨ (∃ e, e ∈ es ∧ e_id e = i) →
  is_Some (nodes (foldl merge_node g es) !! i).
Proof.
  revert g. induction es as [|e es IH]; intros g; simpl.
  - intros [?|(e & ?%elem_of_nil & _)]; done.
  - intros [Hi|(e' & [->|He']%elem_of_cons & <-)]; apply IH.
    + left. simpl. rewrite lookup_insert. case_decide; [by eexists|done].
    + left. simpl. rewrite lookup_insert_eq. by eexists.
    + right. by exists e'.
Qed.

Lemma filter_eq_absent (x : Z * Z) l : x ∉ l → filter (x =.) l = [].
Proof.
  induction l as [|y l IH]; [done|].
  intros [Hxy Hx]%not_elem_of_cons. rewrite filter_cons.
  case_decide; [done|auto].
Qed.

Lemma length_filter_eq_NoDup (x : Z * Z) l :
  NoDup l → x ∈ l → length (filter (x =.) l) = 1%nat.
Proof.
  induction l as [|y l IH]; [by intros _ ?%elem_of_nil|].
  intros [Hy Hnd]%NoDup_cons Hx. rewrite filter_cons.
  case_decide as Hxy.
  - subst y. simpl. by rewrite filter_eq_absent.
  - apply IH; [done|]. by apply elem_of_cons in Hx as [->|Hx].
Qed.

(** C4. When the two queries of [build_graph] succeed on records with
    non-empty geometries, the stored relationships hold no duplicate; two
    records with different ids that share an endpoint coordinate, be it one
    or both, are connected by exactly one stored relationship in each
    direction, even though [_generate_relationships] lists the pair once per
    shared coordinate. *)
Theorem edges_collapsed (elements : list element) (graph_name : option string)
    (g : neo4j) :
  nodes_fault E = None → relationships_fault E = None →
  (∀ e, e ∈ elements → e_geometry e ≠ []) →
  NoDup (rels g) →
  ∃ g',
    GraphBuilder_build_graph elements graph_name g = (inr (), g')
    ∧ NoDup (rels g')
    ∧ ∀ a b, a ∈ elements → b ∈ elements → e_id a ≠ e_id b →
        share_endpoint a b →
        length (filter ((e_id a, e_id b) =.) (rels g')) = 1%nat
        ∧ length (filter ((e_id b, e_id a) =.) (rels g')) = 1%nat.
Proof.
  intros Hn Hr Hne Hnd.
  destruct (relationships_of_returns elements Hne) as (m & Hm & Hkeys & Hget).
  unfold GraphBuilder_build_graph, _create_nodes, _create_relationships.
  rewrite Hn, Hm, Hr. simpl. eexists. split; [done|].
  assert (Hnd' : NoDup (rels (foldl connect (foldl merge_node g elements)
                                (_generate_relationships m)))).
  { apply foldl_connect_NoDup. by rewrite foldl_merge_node_rels. }
  split; [done|].
  intros a b Ha Hb Hab (k & Hka & Hkb).
  destruct (proj2 (joined_iff m (e_id a) (e_id b) Hkeys)) as (r & Hin & Hj).
  { split; [done|]. exists k. split; apply Hget; eauto. }
  destruct (foldl_connect_both _ (foldl merge_node g elements) r Hin)
    as [Hft Htf].
  { apply foldl_merge_node_lookup. right.
    destruct Hj as [[-> _]|[-> _]]; eauto. }
  { apply foldl_merge_node_lookup. right.
    destruct Hj as [[_ ->]|[_ ->]]; eauto. }
  destruct Hj as [[Hf Ht]|[Hf Ht]]; rewrite Hf, Ht in Hft, Htf;
    split; by apply length_filter_eq_NoDup.
Qed.


(** ** Runs of [main] *)

Lemma M_bind_inv {A B} (m : M A) (f : A → M B) w r w' t :
  (m ≫= f) w = (r, w', t) →
  (∃ e, m w = (inl e, w', t) ∧ r = inl e)
  ∨ (∃ x w1 t1 t2,
       m w = (inr x, w1, t1) ∧ f x w1 = (r, w', t2) ∧ t = t1 ++ t2).
Proof.
  unfold mbind, M_bind. destruct (m w) as [[[e|x] w1] t1].
  - intros [= <- <- <-]. left. by exists e.
  - destruct (f x w1) as [[r2 w2] t2] eqn:Hf. intros [= <- <- <-].
    right. by exists x, w1, t1, t2.
Qed.

Lemma M_ret_inv {A} (x : A) w r w' t :
  mret (M := M) x w = (r, w', t) → r = inr x ∧ w' = w ∧ t = [].
Proof. by intros [= <- <- <-]. Qed.

Lemma invoke_inv {A} o (c : world → result A * world) w r w' t :
  invoke o c w = (r, w', t) →
  c w = (r, w')
  ∧ t = Call o :: match r with inl e => [Raised o e] | inr _ => [] end.
Proof.
  unfold invoke. destruct (c w) as [r1 w1]. by intros [= <- <- <-].
Qed.

Lemma pure_call_inv {A} (x : result A) (w : world) r w' :
  pure_call x w = (r, w') → r = x ∧ w' = w.
Proof. by intros [= <- <-]. Qed.

Lemma on_snapshot_inv {A} (c : file → result A * file) (w : world) r w' :
  on_snapshot c w = (r, w') →
  ∃ f, c (snapshot w) = (r, f)
       ∧ w' = {| snapshot := f; table := table w; graph := graph w |}.
Proof.
  unfold on_snapshot. destruct (c (snapshot w)) as [r1 f].
  intros [= <- <-]. by exists f.
Qed.

Lemma on_table_inv {A} (c : gmap Z row → result A * gmap Z row) (w : world)
    r w' :
  on_table c w = (r, w') →
  ∃ t, c (table w) = (r, t)
       ∧ w' = {| snapshot := snapshot w; table := t; graph := graph w |}.
Proof.
  unfold on_table. destruct (c (table w)) as [r1 t].
  intros [= <- <-]. by exists t.
Qed.

Lemma on_graph_inv {A} (c : neo4j → result A * neo4j) (w : world) r w' :
  on_graph c w = (r, w') →
  ∃ g, c (graph w) = (r, g)
       ∧ w' = {| snapshot := snapshot w; table := table w; graph := g |}.
Proof.
  unfold on_graph. destruct (c (graph w)) as [r1 g].
  intros [= <- <-]. by exists g.
Qed.

(** Splits a run into the outcomes of its calls, one goal per path. *)
Ltac run_inv :=
  repeat (cbv beta in *;
    match goal with
    | H : (_ ≫= _) _ = (_, _, _) |- _ =>
        apply M_bind_inv in H as [(? & H & ?)|(? & ? & ? & ? & H & ? & ?)]
    | H : invoke _ _ _ = (_, _, _) |- _ => apply invoke_inv in H as [H ?]
    | H : mret _ _ = (_, _, _) |- _ => apply M_ret_inv in H as (? & ? & ?)
    | H : pure_call _ _ = (_, _) |- _ => apply pure_call_inv in H as [? ?]
    | H : on_snapshot _ _ = (_, _) |- _ =>
        apply on_snapshot_inv in H as (? & H & ?)
    | H : on_table _ _ = (_, _) |- _ => apply on_table_inv in H as (? & H & ?)
    | H : on_graph _ _ = (_, _) |- _ => apply on_graph_inv in H as (? & H & ?)
    | H : (if ?b then _ else _) _ = (_, _, _) |- _ => destruct b eqn:?
    | H : (_, _) = (_, _) |- _ => injection H as ? ?
    end; simplify_eq); simpl in *.

Lemma main_inv w r w' t :
  main w = (r, w', t) →
  r = inr ()
  ∧ ((main_body w = (inr (), w', t))
     ∨ ∃ e t0, main_body w = (inl e, w', t0)
               ∧ t = t0 ++ [LogError (report_of e) e]).
Proof.
  unfold main. destruct (main_body w) as [[[e|[]] w1] t1].
  - intros [= <- <- <-]. split; [done|]. right. by exists e, t1.
  - intros [= <- <- <-]. split; [done|]. by left.
Qed.

Lemma cleanup_raises t e t' :
  SqlDataStorage_cleanup t = (inl e, t') → t' = t ∧ ∃ c, e = DatabaseError c.
Proof.
  unfold SqlDataStorage_cleanup.
  repeat case_match; intros [= <- <-]; eauto.
Qed.

Lemma save_data_raises d t e t' :
  SqlDataStorage_save_data d t = (inl e, t') → ∃ c, e = DatabaseError c.
Proof.
  unfold SqlDataStorage_save_data, as_DatabaseError.
  repeat case_match; intros [= <- <-]; eauto.
Qed.




Lemma json_save_returns d f u f' :
  JsonDataStorage_save_data d f = (inr u, f') → f' = JsonFile d.
Proof.
  unfold JsonDataStorage_save_data. by repeat case_match; intros [= <-].
Qed.





(** C5. In every run in which [sql_storage.cleanup] or
    [sql_storage.save_data] raises, the exception is a [DatabaseError],
    neither [graph_builder.cleanup] nor [graph_builder.build_graph] is
    called, the graph is left as it was, and the last thing the run does is
    to log the database error. *)
Theorem sequencing_on_failure w r w' t e :
  main w = (r, w', t) →
  Raised SqlCleanup e ∈ t ∨ Raised SqlSave e ∈ t →
  (Call GraphCleanup ∉ t) ∧ (Call GraphBuild ∉ t)
  ∧ graph w' = graph w
  ∧ (∃ cause, e = DatabaseError cause)
  ∧ last t = Some (LogError DatabaseErr e).
Proof using Type.
  clear set_list_perm.
  intros [-> [Hrun|(e0 & t0 & Hrun & ->)]]%main_inv Hraised;
    unfold main_body, sync in Hrun; run_inv.
  all: try (exfalso; set_solver).
  - match goal with
    | H : SqlDataStorage_cleanup _ = (inl ?x, _) |- _ =>
        assert (e = x) as -> by set_solver;
        apply cleanup_raises in H as (_ & c & ->)
    end.
    split_and!; [set_solver..|done|by exists c|done].
  - match goal with
    | H : SqlDataStorage_save_data _ _ = (inl ?x, _) |- _ =>
        assert (e = x) as -> by set_solver;
        apply save_data_raises in H as (c & ->)
    end.
    split_and!; [set_solver..|done|by exists c|done].
Qed.


Lemma is_data_changed_true (d : list element) old :
  is_data_changed d old = true ↔ Some d ≠ old.
Proof.
  unfold is_data_changed. rewrite negb_true_iff, bool_decide_eq_false. done.
Qed.

(** Reads off which call raised from a trace that is known. *)
Ltac pick_raised H :=
  rewrite ?elem_of_cons, ?elem_of_nil in H; destruct_or!; simplify_eq.

(** C1, as the code has it. The snapshot is written right after the diff
    gate, before any sink is touched: in every run in which
    [sql_storage.cleanup], [sql_storage.save_data], [graph_builder.cleanup]
    or [graph_builder.build_graph] raises, the snapshot file ends the run
    holding the newly processed collection, which differs from what the
    file held at the start of the run. *)
Theorem snapshot_written_before_sinks w r w' t o e :
  main w = (r, w', t) →
  sink_op o →
  Raised o e ∈ t →
  ∃ bbox raw d old,
    get_region_bbox (default "" (REGION (config E))) = inr bbox
    ∧ download_data bbox = inr raw
    ∧ process_data raw = inr d
    ∧ JsonDataStorage_get_data (snapshot w) = inr old
    ∧ old ≠ Some d
    ∧ snapshot w' = JsonFile d.
Proof using Type.
  clear set_list_perm.
  intros [-> [Hrun|(e0 & t0 & Hrun & ->)]]%main_inv Hsink Hraised;
    unfold main_body, sync in Hrun; run_inv;
    unfold sink_op in Hsink; pick_raised Hsink; pick_raised Hraised.
  all: match goal with
       | H : JsonDataStorage_save_data _ _ = (inr _, _) |- _ =>
           apply json_save_returns in H as ->
       end.
  all: match goal with
       | H : negb (is_data_changed _ _) = false |- _ =>
           apply negb_false_iff, is_data_changed_true in H
       end.
  all: do 4 eexists; split_and!; try done; congruence.
Qed.



(** ** Re-running the synchronisation *)

(** Clearing the table either fails and leaves it as it is, or empties it,
    whatever it held. *)
Lemma cleanup_uniform :
  (∃ e, ∀ t, SqlDataStorage_cleanup t = (inl e, t))
  ∨ (∀ t, SqlDataStorage_cleanup t = (inr (), ∅)).
Proof.
  unfold SqlDataStorage_cleanup.
  destruct (_get_connection (truncate_connect_fault E)) as [e|[]];
    [left; by eexists|].
  destruct (truncate_fault E); [left; by eexists|by right].
Qed.

Lemma graph_cleanup_uniform :
  (∃ e, ∀ g, GraphBuilder_cleanup g = (inl e, g))
  ∨ (∀ g, GraphBuilder_cleanup g = (inr (), Neo4j ∅ [])).
Proof.
  unfold GraphBuilder_cleanup.
  destruct (delete_fault E); [left; by eexists|by right].
Qed.

(** C9. With collaborators that behave the same way both times, running
    lines 68-75 of [main] a second time on the stores the first run left
    gives the same outcome, leaves the table and the graph exactly as the
    first run left them, and makes the same calls; in particular two
    successful synchronisations leave the sinks as one does. *)
Theorem resync_idempotent (processed_data : list element) (w : world) :
  sync processed_data (sync processed_data w).1.2 = sync processed_data w.
Proof.
  unfold sync, mbind, M_bind, invoke, on_table, on_graph. simpl.
  destruct cleanup_uniform as [[e He]|He]; rewrite !He; simpl;
    rewrite ?He; simpl; [done|].
  destruct (SqlDataStorage_save_data processed_data ∅) as [[e|[]] t1] eqn:Hs;
    simpl; rewrite ?He, ?Hs; simpl; [done|].
  destruct graph_cleanup_uniform as [[e Hg]|Hg]; rewrite !Hg; simpl;
    rewrite ?He, ?Hs, ?Hg; simpl; [done|].
  destruct (GraphBuilder_build_graph processed_data _ (Neo4j ∅ []))
    as [[e|[]] g1] eqn:Hb; simpl; rewrite ?He, ?Hs, ?Hg, ?Hb; simpl;
    by rewrite ?Hg, ?Hb.
Qed.

(** ** The first run *)

(** C10. With no snapshot file, [is_data_changed] is true for every
    collection, the empty one included; and a run without failures whose
    processed collection is empty passes the gate, writes the empty
    collection to the snapshot file, and clears and loads both sinks,
    leaving them empty. *)
Theorem first_run_passes_gate :
  (∀ processed_data : list element, is_data_changed processed_data None = true)
  ∧ ∀ w bbox raw,
      snapshot w = NoFile →
      validate (config E) = inr () →
      init = inr () →
      get_region_bbox (default "" (REGION (config E))) = inr bbox →
      download_data bbox = inr raw →
      process_data raw = inr [] →
      open_write_fault E = None → dump_fault E = None →
      truncate_connect_fault E = None → truncate_fault E = None →
      insert_connect_fault E = None →
      delete_fault E = None →
      nodes_fault E = None → relationships_fault E = None →
      main w
      = (inr (),
         {| snapshot := JsonFile []; table := ∅; graph := Neo4j ∅ [] |},
         [Call Validate; Call Init; Call Geocode; Call Download; Call Process;
          Call JsonGet; Call JsonSave; Call SqlCleanup; Call SqlSave;
          Call GraphCleanup; Call GraphBuild]).
Proof.
  split; [done|].
  intros w bbox raw Hw Hv Hi Hg Hd Hp Ho Hdu Htc Ht Hic Hde Hn Hr.
  unfold main, main_body, sync, mbind, M_bind, invoke, pure_call,
    on_snapshot, on_table, on_graph.
  rewrite Hv, Hi, Hg, Hd, Hp, Hw. simpl.
  unfold JsonDataStorage_save_data, SqlDataStorage_cleanup,
    SqlDataStorage_save_data, GraphBuilder_cleanup, GraphBuilder_build_graph,
    _create_nodes, _create_relationships.
  by rewrite Ho, Hdu, Htc, Ht, Hic, Hde, Hn, Hr.
Qed.

(** ** The processor and the differ *)

Lemma process_loop_spec (els : list raw_element) acc :
  (∀ el, el ∈ els → is_Some (r_type el)) →
  (∀ el, el ∈ els → r_type el = Some "way" → is_Some (r_id el)) →
  ∃ d, process_loop els acc = inr (acc ++ d)
       ∧ Forall2 normalises (filter (λ el, r_type el = Some "way") els) d.
Proof using Type.
  clear set_list_perm.
  revert acc. induction els as [|el els IH]; intros acc Hty Hid; simpl.
  - exists []. by rewrite app_nil_r.
  - destruct (Hty el) as [ty Hel]; [left|].
    rewrite filter_cons. unfold _process, _extract_geometry.
    rewrite Hel. simpl_result. case_decide as Hway.
    + subst ty. destruct (Hid el) as [i Hi]; [left|done|].
      rewrite Hi. simpl. rewrite ?decide_True by done.
      match goal with
      | |- context [process_loop els (acc ++ [?x])] =>
          destruct (IH (acc ++ [x])) as (d & -> & Hf); [set_solver..|];
          exists (x :: d)
      end.
      split; [by rewrite <-app_assoc|]. by constructor.
    + rewrite decide_False by congruence.
      apply IH; set_solver.
Qed.

(** C6, as the code has it. When every raw element has a type and every
    "way" an id, [process_data] returns one record per raw element of type
    "way", in input order, with that element's geometry, or the empty
    sequence when it has none: a way without geometry is kept with empty
    coordinates, and only elements of another type are left out. *)
Theorem process_data_keeps_ways (raw : raw_data) :
  (∀ el, el ∈ default [] (raw_elements raw) → is_Some (r_type el)) →
  (∀ el, el ∈ default [] (raw_elements raw) →
         r_type el = Some "way" → is_Some (r_id el)) →
  ∃ processed_data,
    process_data raw = inr processed_data
    ∧ Forall2 normalises
        (filter (λ el, r_type el = Some "way") (default [] (raw_elements raw)))
        processed_data.
Proof using Type.
  clear set_list_perm. intros Hty Hid. by apply (process_loop_spec _ []).
Qed.

(** C7. [is_data_changed] is false on a collection and itself, true when
    there is no previous collection, and true exactly when the two
    collections differ as sequences of records, in any id, geometry, name,
    in length or in order. *)
Theorem differ_reflexive_and_sensitive :
  (∀ X : list element, is_data_changed X (Some X) = false)
  ∧ (∀ X : list element, is_data_changed X None = true)
  ∧ (∀ X Y : list element, is_data_changed X (Some Y) = true ↔ X ≠ Y).
Proof.
  split_and!.
  - intros X. unfold is_data_changed. by rewrite bool_decide_eq_true_2.
  - done.
  - intros X Y. rewrite is_data_changed_true. naive_solver.
Qed.

(** * Further properties of the code *)

(** ** utils/config.py *)

(** X1. [Config.validate] returns exactly when every one of the fifteen
    settings is set and non-empty; a missing or empty REGION raises
    [ValueError], and any other missing setting raises [ConfigError]. *)
Theorem validate_complete (c : Config) :
  (validate c = inr () ↔ forallb truthy (all_settings c) = true)
  ∧ (truthy (REGION c) = false → validate c = raise ValueError)
  ∧ (truthy (REGION c) = true → ∀ e, validate c = inl e → e = ConfigError).
Proof using Type.
  clear set_list_perm.
  unfold validate, _validate_sql_config, _validate_neo4j_config. cbv zeta.
  change (all_settings c) with
    ([REGION c]
     ++ [sql_host (SQL_CONFIG c); sql_port (SQL_CONFIG c);
         sql_name (SQL_CONFIG c); sql_user (SQL_CONFIG c);
         sql_password (SQL_CONFIG c); sql_table (SQL_CONFIG c)]
     ++ [neo4j_uri (NEO4J_CONFIG c); neo4j_user (NEO4J_CONFIG c);
         neo4j_password (NEO4J_CONFIG c); neo4j_graph_name (NEO4J_CONFIG c)]
     ++ [LOGGER_CONFIG_PATH c; OUTPUT_DIR_PATH c; OUTPUT_FILE_NAME c;
         GEOCODING_AGENT c; OSM_API_URL c]).
  rewrite !forallb_app.
  destruct (forallb truthy [sql_host _; _; _; _; _; _]),
    (forallb truthy [neo4j_uri _; _; _; _]); simpl;
  destruct (truthy (REGION c)), (truthy (LOGGER_CONFIG_PATH c)),
    (truthy (OUTPUT_DIR_PATH c)), (truthy (OUTPUT_FILE_NAME c)),
    (truthy (GEOCODING_AGENT c)), (truthy (OSM_API_URL c));
    simpl_result; (split_and!; [by split|done|]);
    try done; intros _ e [=]; by subst.
Qed.

(** ** data/geocoder.py *)

(** X2. [get_region_bbox] returns exactly when the geocoder finds a location
    whose bounding box has at least four entries, and the result joins
    entries 0, 2, 1 and 3, in that order, with commas. *)
Theorem get_region_bbox_returns (region_name bbox : string) :
  get_region_bbox region_name = inr bbox
  ↔ ∃ b0 b1 b2 b3 rest,
      geocode E region_name = Located (b0 :: b1 :: b2 :: b3 :: rest)
      ∧ bbox = String.concat "," [b0; b2; b1; b3].
Proof using Type.
  clear set_list_perm. unfold get_region_bbox, index.
  destruct (geocode E region_name) as [bb| |l].
  - destruct bb as [|b0 [|b1 [|b2 [|b3 rest]]]]; simpl_result;
      try (split; [discriminate|by intros (? & ? & ? & ? & ? & [=] & _)]).
    split.
    + intros [= <-]. by exists b0, b1, b2, b3, rest.
    + by intros (? & ? & ? & ? & ? & [= <- <- <- <- <-] & ->).
  - split; [discriminate|by intros (? & ? & ? & ? & ? & [=] & _)].
  - split; [by case_bool_decide|by intros (? & ? & ? & ? & ? & [=] & _)].
Qed.

(** X3. When no location is found [get_region_bbox] raises a
    [GeocodingError] without cause; when the location's bounding box has
    fewer than four entries it raises an [IndexError], which no clause
    wraps. *)
Theorem get_region_bbox_failures (region_name : string) :
  (geocode E region_name = NotLocated →
   get_region_bbox region_name = inl (GeocodingError None))
  ∧ (∀ boundingbox,
       geocode E region_name = Located boundingbox →
       (length boundingbox < 4)%nat →
       get_region_bbox region_name = raise IndexError).
Proof using Type.
  clear set_list_perm. unfold get_region_bbox, index. split.
  - by intros ->.
  - intros bb -> Hlen.
    destruct bb as [|b0 [|b1 [|b2 [|b3 rest]]]]; simpl in *; try done; lia.
Qed.

(** ** data/data_processor.py *)

Lemma process_loop_acc (els : list raw_element) acc :
  process_loop els acc = d ← process_loop els []; mret (acc ++ d).
Proof using Type.
  clear set_list_perm.
  revert acc. induction els as [|el els IH]; intros acc; simpl.
  - simpl_result. by rewrite app_nil_r.
  - destruct (r_type el) as [ty|]; simpl_result; [|done].
    case_decide; [|apply IH].
    destruct (_process el) as [e|x]; simpl; [done|].
    rewrite (IH (acc ++ [x])), (IH [x]).
    destruct (process_loop els []) as [e|d]; simpl; [done|].
    by rewrite <-app_assoc.
Qed.

Lemma process_loop_app (l1 l2 : list raw_element) acc :
  process_loop (l1 ++ l2) acc = acc' ← process_loop l1 acc; process_loop l2 acc'.
Proof using Type.
  clear set_list_perm.
  revert acc. induction l1 as [|el l1 IH]; intros acc; simpl; [done|].
  destruct (r_type el) as [ty|]; simpl_result; [|done].
  case_decide; [|apply IH].
  destruct (_process el) as [e|x]; simpl; [done|apply IH].
Qed.

(** X4. Processing the concatenation of two element lists gives the
    concatenation of their results, and fails when either part fails. *)
Theorem process_data_app (l1 l2 : list raw_element) :
  process_data {| raw_elements := Some (l1 ++ l2) |}
  = d1 ← process_data {| raw_elements := Some l1 |};
    d2 ← process_data {| raw_elements := Some l2 |};
    mret (d1 ++ d2).
Proof using Type.
  clear set_list_perm. unfold process_data. simpl.
  rewrite process_loop_app.
  destruct (process_loop l1 []) as [e|d1]; simpl_result; [done|].
  apply process_loop_acc.
Qed.

Lemma process_loop_fails (els : list raw_element) acc e :
  process_loop els acc = inl e →
  e = LibraryError KeyError ∧ ∃ el, el ∈ els ∧ unusable el.
Proof using Type.
  clear set_list_perm.
  revert acc. induction els as [|el els IH]; intros acc; simpl; [done|].
  unfold _process, _extract_geometry.
  destruct (r_type el) as [ty|] eqn:Hty; simpl_result.
  2:{ intros [= <-]. split; [done|]. exists el. split; [left|by left]. }
  case_decide as Hway.
  - subst ty. destruct (r_id el) as [i|] eqn:Hid; simpl.
    + intros (-> & el' & ? & ?)%IH.
      split; [done|]. exists el'. split; [by right|done].
    + intros [= <-]. split; [done|]. exists el. split; [left|by right].
  - intros (-> & el' & ? & ?)%IH.
    split; [done|]. exists el'. split; [by right|done].
Qed.

Lemma process_loop_unusable (els : list raw_element) acc el :
  el ∈ els → unusable el → process_loop els acc = raise KeyError.
Proof using Type.
  clear set_list_perm.
  revert acc. induction els as [|el' els IH]; intros acc Hin Hbad.
  - by apply elem_of_nil in Hin.
  - simpl. unfold _process, _extract_geometry.
    destruct (r_type el') as [ty|] eqn:Hty; simpl_result; [|done].
    case_decide as Hway.
    + subst ty. destruct (r_id el') as [i|] eqn:Hid; simpl; [|done].
      apply elem_of_cons in Hin as [->|Hin]; [|by apply IH].
      destruct Hbad as [?|[? ?]]; congruence.
    + apply elem_of_cons in Hin as [->|Hin]; [|by apply IH].
      destruct Hbad as [?|[? ?]]; congruence.
Qed.

(** X5. [process_data] raises [KeyError] exactly when some raw element,
    anywhere in the response, has no "type" or is a "way" without "id"; it
    raises nothing else, and returns no partial result. *)
Theorem process_data_fails_iff (raw : raw_data) :
  (process_data raw = raise KeyError
   ↔ ∃ el, el ∈ default [] (raw_elements raw) ∧ unusable el)
  ∧ ∀ e, process_data raw = inl e → e = LibraryError KeyError.
Proof using Type.
  clear set_list_perm. split; [split|].
  - by intros (_ & Hbad)%process_loop_fails.
  - intros (el & Hin & Hbad). by eapply process_loop_unusable.
  - by intros e (-> & _)%process_loop_fails.
Qed.

(** The differ is symmetric in its two collections. *)
Lemma is_data_changed_sym (X Y : list element) :
  is_data_changed X (Some Y) = is_data_changed Y (Some X).
Proof using Type.
  clear set_list_perm. unfold is_data_changed. f_equal.
  apply bool_decide_ext. naive_solver.
Qed.

(** ** main.py: the shape of a run *)

(** X6. Without REGION the run ends at [Config.validate]: the [ValueError]
    is not a [ConfigError], so it is logged by the catch-all clause as
    unexpected; nothing else is called and no store changes. *)
Theorem missing_region_is_unexpected (w : world) :
  truthy (REGION (config E)) = false →
  main w
  = (inr (), w,
     [Call Validate; Raised Validate (LibraryError ValueError);
      LogError UnexpectedErr (LibraryError ValueError)]).
Proof using Type.
  clear set_list_perm. intros Hregion.
  unfold main, main_body, mbind, M_bind, invoke, pure_call.
  by rewrite (proj1 (proj2 (validate_complete (config E))) Hregion).
Qed.

(** X7. [main] always returns normally, and its trace is the list of its
    calls followed, when a call raised, by that exception and the one error
    logged for it; the call that raised is the last call made. *)
Theorem trace_shape w r w' t :
  main w = (r, w', t) →
  r = inr ()
  ∧ (t = Call <$> calls_of t
     ∨ ∃ o e, last (calls_of t) = Some o
              ∧ t = (Call <$> calls_of t)
                    ++ [Raised o e; LogError (report_of e) e]).
Proof using Type.
  clear set_list_perm.
  intros [-> [Hrun|(e0 & t0 & Hrun & ->)]]%main_inv;
    unfold main_body, sync in Hrun; run_inv; (split; [done|]);
    solve [by left | right; by eexists _, _].
Qed.

(** X8. The calls of a run are an initial part of the fixed sequence
    validate, init, geocode, download, process, read the snapshot, write
    the snapshot, clear and load the table, clear and load the graph. *)
Theorem calls_in_order w r w' t :
  main w = (r, w', t) → calls_of t `prefix_of` pipeline.
Proof using Type.
  clear set_list_perm.
  intros [-> [Hrun|(e0 & t0 & Hrun & ->)]]%main_inv;
    unfold main_body, sync in Hrun; run_inv; by eexists.
Qed.

(** X9. A run changes nothing before it writes the snapshot: without a
    call of [json_storage.save_data] the three stores are as before,
    without a call of [sql_storage.cleanup] the table is as before, and
    without a call of [graph_builder.cleanup] the graph is as before. *)
Theorem stores_untouched w r w' t :
  main w = (r, w', t) →
  (Call JsonSave ∉ t → w' = w)
  ∧ (Call SqlCleanup ∉ t → table w' = table w)
  ∧ (Call GraphCleanup ∉ t → graph w' = graph w).
Proof using Type.
  clear set_list_perm. destruct w as [f tb g].
  intros [-> [Hrun|(e0 & t0 & Hrun & ->)]]%main_inv;
    unfold main_body, sync in Hrun; run_inv;
    (split_and!; intros Hnot; try done; exfalso; apply Hnot; set_solver).
Qed.

(** ** data/data_storage.py: the snapshot file *)

(** What [save_data] writes, [get_data] reads back: after a successful
    save, a read that can open the file returns the saved collection. *)
Lemma json_round_trip (data : list element) (f f' : file) u :
  JsonDataStorage_save_data data f = (inr u, f') →
  open_read_fault E = None →
  JsonDataStorage_get_data f' = inr (Some data).
Proof using Type.
  clear set_list_perm. intros ->%json_save_returns Hread.
  unfold JsonDataStorage_get_data. by rewrite Hread.
Qed.

(** A failed [save_data] either could not open the file, which is then
    as before, or failed while dumping, which leaves a file that is not a
    JSON document: every later [get_data] that opens it raises
    [JSONDecodeError]. *)
Lemma json_save_failure (data : list element) (f f' : file) e :
  JsonDataStorage_save_data data f = (inl e, f') →
  (open_write_fault E ≠ None ∧ f' = f)
  ∨ (open_write_fault E = None ∧ dump_fault E ≠ None ∧ f' = Garbage
     ∧ (open_read_fault E = None →
        JsonDataStorage_get_data f' = raise JSONDecodeError)).
Proof using Type.
  clear set_list_perm. unfold JsonDataStorage_save_data.
  destruct (open_write_fault E) as [l|]; [intros [= <- <-]; by left|].
  destruct (dump_fault E) as [l|]; [|done]. intros [= <- <-]. right.
  split_and!; try done. intros Hread.
  unfold JsonDataStorage_get_data. by rewrite Hread.
Qed.

(** X10. The diff gate: when the snapshot file holds exactly the freshly
    processed collection, the run stops after reading it; nothing is
    written, no sink is called and no error is logged. *)
Theorem unchanged_data_is_skipped (w : world) bbox raw d :
  validate (config E) = inr () →
  init = inr () →
  get_region_bbox (default "" (REGION (config E))) = inr bbox →
  download_data bbox = inr raw →
  process_data raw = inr d →
  snapshot w = JsonFile d →
  open_read_fault E = None →
  main w
  = (inr (), w,
     [Call Validate; Call Init; Call Geocode; Call Download; Call Process;
      Call JsonGet]).
Proof using Type.
  clear set_list_perm. intros Hv Hi Hg Hd Hp Hs Hr.
  unfold main, main_body, mbind, M_bind, invoke, pure_call.
  rewrite Hv, Hi, Hg, Hd, Hp, Hs. unfold JsonDataStorage_get_data.
  rewrite Hr. simpl. unfold is_data_changed.
  by rewrite bool_decide_eq_true_2.
Qed.

(** X11. Once a run has written the snapshot, whether or not its sinks were
    then loaded, the next run with the same collaborators is skipped at the
    diff gate: it calls no sink and changes nothing. A sink failure is
    therefore not repaired by running again on unchanged data. *)
Theorem rerun_is_skipped w r w' t :
  main w = (r, w', t) →
  Call JsonSave ∈ t →
  (∀ e, Raised JsonSave e ∉ t) →
  open_read_fault E = None →
  main w'
  = (inr (), w',
     [Call Validate; Call Init; Call Geocode; Call Download; Call Process;
      Call JsonGet]).
Proof using Type.
  clear set_list_perm.
  intros [-> [Hrun|(e0 & t0 & Hrun & ->)]]%main_inv Hsave Hok Hread;
    unfold main_body, sync in Hrun; run_inv;
    try (exfalso; set_solver);
    try (exfalso; eapply Hok; set_solver).
  all: match goal with
       | H : JsonDataStorage_save_data _ _ = (inr _, _) |- _ =>
           apply json_save_returns in H as ->
       end.
  all: repeat match goal with u : () |- _ => destruct u end.
  all: eapply unchanged_data_is_skipped; eauto using eq_sym.
Qed.

(** X12. A snapshot file that is not a JSON document blocks the pipeline:
    every run on it raises before the diff gate, writes nothing and calls
    no sink. *)
Theorem corrupt_snapshot_blocks w r w' t :
  snapshot w = Garbage →
  main w = (r, w', t) →
  w' = w
  ∧ (∃ o e, Raised o e ∈ t)
  ∧ Call JsonSave ∉ t.
Proof using Type.
  clear set_list_perm. destruct w as [f tb g]. simpl. intros ->.
  intros [-> [Hrun|(e0 & t0 & Hrun & ->)]]%main_inv;
    unfold main_body, sync in Hrun; run_inv;
    try match goal with
        | H : context [open_read_fault E] |- _ =>
            revert H; by destruct (open_read_fault E)
        end;
    (split_and!;
       [done
       |eexists _, _;
        repeat first [left|right]
       |set_solver]).
Qed.

(** ** data/data_storage.py: the relational table *)

Lemma save_loop_returns (data : list element) t u t' :
  save_loop data t = (inr u, t') → t' = upserted data t.
Proof using Type.
  clear set_list_perm.
  revert t. induction data as [|item data IH]; intros t; simpl.
  - by intros [= <-].
  - destruct (insert_fault E _ _ _); [done|]. apply IH.
Qed.

Lemma save_loop_no_fault (data : list element) t :
  (∀ item, item ∈ data →
           insert_fault E (e_id item) (e_name item)
             (_create_linestring fmt (e_geometry item)) = None) →
  save_loop data t = (inr (), upserted data t).
Proof using Type.
  clear set_list_perm.
  revert t. induction data as [|item data IH]; intros t Hok; simpl; [done|].
  rewrite Hok by left. apply IH. intros item' ?. apply Hok. by right.
Qed.

Lemma upserted_other (data : list element) t i :
  i ∉ e_id <$> data → upserted data t !! i = t !! i.
Proof using Type.
  clear set_list_perm.
  revert t. induction data as [|item data IH]; intros t; simpl; [done|].
  rewrite not_elem_of_cons. intros [Hne Hnin].
  unfold upserted in *. simpl. rewrite IH by done.
  by rewrite lookup_insert_ne.
Qed.

Lemma upserted_last (pre post : list element) item t :
  e_id item ∉ e_id <$> post →
  upserted (pre ++ item :: post) t !! e_id item = Some (row_of item).
Proof using Type.
  clear set_list_perm. intros Hnin.
  pose proof (upserted_other post
                (<[ e_id item := row_of item ]> (upserted pre t))
                (e_id item) Hnin) as Hpost.
  unfold upserted in *. rewrite foldl_app. simpl.
  by rewrite Hpost, lookup_insert_eq.
Qed.

(** X13. A [save_data] that meets no failure upserts every item: afterwards
    the row of an id is that of the last item with this id, and the rows of
    ids that are not in the data are as before. *)
Theorem save_data_upserts (data : list element) (t : gmap Z row) :
  insert_connect_fault E = None →
  (∀ item, item ∈ data →
           insert_fault E (e_id item) (e_name item)
             (_create_linestring fmt (e_geometry item)) = None) →
  ∃ t',
    SqlDataStorage_save_data data t = (inr (), t')
    ∧ (∀ pre item post,
         data = pre ++ item :: post → e_id item ∉ e_id <$> post →
         t' !! e_id item = Some (row_of item))
    ∧ (∀ i, i ∉ e_id <$> data → t' !! i = t !! i).
Proof using Type.
  clear set_list_perm. intros Hc Hok. exists (upserted data t).
  unfold SqlDataStorage_save_data. rewrite Hc. simpl.
  rewrite (save_loop_no_fault _ _ Hok). split_and!; [done| |].
  - intros pre item post -> Hnin. by apply upserted_last.
  - intros i Hi. by apply upserted_other.
Qed.

Lemma save_loop_raises (data : list element) t e t' :
  save_loop data t = (inl e, t') →
  ∃ pre item post l,
    data = pre ++ item :: post
    ∧ insert_fault E (e_id item) (e_name item)
        (_create_linestring fmt (e_geometry item)) = Some l
    ∧ e = LibraryError l
    ∧ save_loop pre t = (inr (), t').
Proof using Type.
  clear set_list_perm.
  revert t. induction data as [|item data IH]; intros t; simpl; [done|].
  destruct (insert_fault E _ _ _) as [l|] eqn:Hf.
  - intros [= <- <-]. by exists [], item, data, l.
  - intros (pre & item' & post & l & -> & Hl & -> & Hpre)%IH.
    exists (item :: pre), item', post, l. simpl. by rewrite Hf.
Qed.

(** X14. When an insert fails, [save_data] raises a [DatabaseError] caused
    by that failure, and the table keeps the rows of the items before the
    failing one, each of them having been committed: the load stops half
    way and is not undone. *)
Theorem save_data_stops_half_way (data : list element) (t t' : gmap Z row) e :
  insert_connect_fault E = None →
  SqlDataStorage_save_data data t = (inl e, t') →
  ∃ pre item post l,
    data = pre ++ item :: post
    ∧ insert_fault E (e_id item) (e_name item)
        (_create_linestring fmt (e_geometry item)) = Some l
    ∧ e = DatabaseError (LibraryError l)
    ∧ t' = upserted pre t.
Proof using Type.
  clear set_list_perm. unfold SqlDataStorage_save_data. intros ->. simpl.
  destruct (save_loop data t) as [[e'|u] t1] eqn:Hloop; [|done].
  intros [= <- <-].
  apply save_loop_raises in Hloop
    as (pre & item & post & l & -> & Hl & -> & Hpre).
  exists pre, item, post, l. split_and!; try done.
  by apply save_loop_returns in Hpre.
Qed.

(** X15. A failure to connect leaves the table as it is, and a
    [psycopg2.Error] at that point is wrapped twice: [_get_connection]
    raises a [DatabaseError] from it, which [cleanup] and [save_data] wrap
    into another [DatabaseError]; any other exception is wrapped once. *)
Theorem connection_failure_wrapped_twice (data : list element)
    (t : gmap Z row) (l : lib_exn) :
  let wrapped :=
    DatabaseError (if bool_decide (l = Psycopg2Error)
                   then DatabaseError (LibraryError l) else LibraryError l) in
  (truncate_connect_fault E = Some l →
   SqlDataStorage_cleanup t = (inl wrapped, t))
  ∧ (insert_connect_fault E = Some l →
     SqlDataStorage_save_data data t = (inl wrapped, t)).
Proof using Type.
  clear set_list_perm.
  unfold SqlDataStorage_cleanup, SqlDataStorage_save_data, _get_connection.
  split; intros ->; by case_bool_decide.
Qed.

Lemma cleanup_returns t u t' :
  SqlDataStorage_cleanup t = (inr u, t') → t' = ∅.
Proof using Type.
  clear set_list_perm. unfold SqlDataStorage_cleanup.
  destruct (_get_connection _); [done|].
  destruct (truncate_fault E); [done|]. by intros [= <-].
Qed.

Lemma save_data_returns (data : list element) t u t' :
  SqlDataStorage_save_data data t = (inr u, t') → t' = upserted data t.
Proof using Type.
  clear set_list_perm. unfold SqlDataStorage_save_data.
  destruct (_get_connection _); [done|].
  destruct (save_loop data t) as [[e|u'] t1] eqn:Hloop; [done|].
  simpl. intros [= _ <-]. by eapply save_loop_returns.
Qed.

(** ** data/graph_builder.py: the stored graph *)

Lemma generate_relationships_distinct (m : connection_map) r :
  r ∈ _generate_relationships m → rel_from r ≠ rel_to r.
Proof.
  intros (k & ids & _ & Hr)%elem_of_generate_relationships.
  eapply pairs_distinct; [apply NoDup_set_list|done].
Qed.

Lemma foldl_merge_node_keeps (es : list element) g i :
  is_Some (nodes g !! i) → is_Some (nodes (foldl merge_node g es) !! i).
Proof using Type.
  clear set_list_perm. intros Hi. apply foldl_merge_node_lookup. by left.
Qed.

Lemma build_graph_returns (elements : list element) n g u g' :
  GraphBuilder_build_graph elements n g = (inr u, g') →
  ∃ m, _build_connection_map elements = inr m
       ∧ g' = foldl connect (foldl merge_node g elements)
                (_generate_relationships m).
Proof using Type.
  clear set_list_perm.
  unfold GraphBuilder_build_graph, _create_nodes, _create_relationships,
    relationships_of.
  destruct (nodes_fault E); [done|]. simpl.
  destruct (_build_connection_map elements) as [e|m]; [done|]. simpl_result.
  destruct (relationships_fault E); [done|]. simpl.
  intros [= <-]. by exists m.
Qed.

Lemma connect_well_formed g r :
  rel_from r ≠ rel_to r → well_formed g → well_formed (connect g r).
Proof using Type.
  clear set_list_perm. intros Hne Hwf. unfold connect.
  case_decide as Hn; [|done]. destruct Hn as [Hf Ht].
  intros a b. simpl. rewrite !elem_of_merge_rel.
  intros [[= -> ->]|[[= -> ->]|Hab]].
  - split_and!; auto.
  - split_and!; auto.
  - destruct (Hwf a b Hab) as (? & ? & ? & ?). split_and!; auto.
Qed.

Lemma foldl_connect_well_formed rs g :
  (∀ r, r ∈ rs → rel_from r ≠ rel_to r) →
  well_formed g → well_formed (foldl connect g rs).
Proof using Type.
  clear set_list_perm.
  revert g. induction rs as [|r rs IH]; intros g Hne Hwf; simpl; [done|].
  apply IH; [intros r' ?; apply Hne; by right|].
  apply connect_well_formed; [apply Hne; left|done].
Qed.

(** X16. A successful [build_graph] keeps the graph well formed: every
    stored relationship has its reverse stored too, joins two different
    ids, and both ids are stored nodes. *)
Theorem build_graph_well_formed (elements : list element) n g u g' :
  GraphBuilder_build_graph elements n g = (inr u, g') →
  well_formed g → well_formed g'.
Proof.
  intros (m & _ & ->)%build_graph_returns Hwf.
  apply foldl_connect_well_formed.
  - apply generate_relationships_distinct.
  - intros a b. rewrite foldl_merge_node_rels. intros Hab.
    destruct (Hwf a b Hab) as (? & ? & ? & ?).
    split_and!; auto using foldl_merge_node_keeps.
Qed.

Lemma build_loop_nonempty (es : list element) m m' :
  build_loop es m = inr m' → ∀ e, e ∈ es → e_geometry e ≠ [].
Proof using Type.
  clear set_list_perm.
  revert m. induction es as [|e es IH]; intros m Hb e'; simpl in Hb.
  - by intros ?%elem_of_nil.
  - unfold start_point in Hb.
    destruct (e_geometry e) as [|p ps] eqn:Hg; [done|]. simpl_result.
    destruct (end_point e); [done|]. simpl in Hb.
    intros [->|Hin]%elem_of_cons; [by rewrite Hg|by eapply IH].
Qed.

Lemma build_loop_empty_geometry (es : list element) m e :
  e ∈ es → e_geometry e = [] → build_loop es m = raise IndexError.
Proof using Type.
  clear set_list_perm.
  revert m. induction es as [|e' es IH]; intros m Hin Hg.
  - by apply elem_of_nil in Hin.
  - simpl. unfold start_point, end_point.
    destruct (e_geometry e') as [|p ps] eqn:Hg'; [done|].
    destruct (last (p :: ps)) as [q|] eqn:Hl; [|done]. simpl_result.
    apply elem_of_cons in Hin as [->|Hin]; [congruence|by eapply IH].
Qed.

(** X17. A record with an empty geometry makes [build_graph] raise a
    [GraphBuilderError] caused by an [IndexError], after the node query has
    already run: all the nodes are stored and no relationship is added. *)
Theorem empty_geometry_breaks_build (elements : list element) n g e :
  nodes_fault E = None →
  e ∈ elements → e_geometry e = [] →
  GraphBuilder_build_graph elements n g
  = (inl (GraphBuilderError (LibraryError IndexError)),
     foldl merge_node g elements).
Proof using Type.
  clear set_list_perm. intros Hn Hin Hg.
  unfold GraphBuilder_build_graph, _create_nodes, _create_relationships,
    relationships_of, _build_connection_map.
  rewrite Hn. simpl. by rewrite (build_loop_empty_geometry _ _ e).
Qed.

(** X18. A record with its own id that shares no endpoint with any other
    record is stored as a node and is on no relationship, when the graph is
    built from an empty one. *)
Theorem isolated_record (elements : list element) n u g' a :
  GraphBuilder_build_graph elements n (Neo4j ∅ []) = (inr u, g') →
  NoDup (e_id <$> elements) →
  a ∈ elements →
  (∀ b, b ∈ elements → b ≠ a → ¬ share_endpoint a b) →
  is_Some (nodes g' !! e_id a)
  ∧ ∀ x, x ∈ rels g' → x.1 ≠ e_id a ∧ x.2 ≠ e_id a.
Proof.
  intros (m & Hm & ->)%build_graph_returns Hids Ha Hiso. split.
  - rewrite foldl_connect_nodes. apply foldl_merge_node_lookup. eauto.
  - assert (Hkeys : NoDup m.*1).
    { eapply build_loop_keys; [exact Hm|apply NoDup_nil_2]. }
    assert (Hget : ∀ k i, i ∈ map_get k m ↔
              ∃ e, e ∈ elements ∧ e_id e = i ∧ k ∈ endpoints e).
    { intros k i. rewrite (build_loop_get _ _ _ _ _ Hm). simpl.
      rewrite elem_of_empty. tauto. }
    assert (Hno : ∀ i, ¬ ∃ r, r ∈ _generate_relationships m
                              ∧ joins r (e_id a) i).
    { intros i (Hne & k & (a' & Ha' & Hia & Hka)%Hget
                       & (b & Hb & <- & Hkb)%Hget)%joined_iff; [|done].
      rewrite (id_determines elements a' a) in Hka by done.
      apply (Hiso b Hb); [congruence|by exists k]. }
    intros [i j] [Hx|(r & Hr & Hj)]%foldl_connect_origin.
    + rewrite foldl_merge_node_rels in Hx. by apply elem_of_nil in Hx.
    + simpl in *. split; intros ->.
      * apply (Hno j). by exists r.
      * apply (Hno i). exists r. split; [done|].
        destruct Hj as [[? ?]|[? ?]]; [by right|by left].
Qed.

(** X19. The order of the records does not matter: a reordered collection
    gives relationships joining the same pairs of ids. *)
Theorem relationships_order_free (elements elements' : list element) rels :
  elements ≡ₚ elements' →
  relationships_of elements = inr rels →
  ∃ rels',
    relationships_of elements' = inr rels'
    ∧ ∀ i j, (∃ r, r ∈ rels ∧ joins r i j) ↔ (∃ r, r ∈ rels' ∧ joins r i j).
Proof.
  intros Hperm Hrel. unfold relationships_of in Hrel.
  destruct (_build_connection_map elements) as [e|m] eqn:Hm; [done|].
  simpl_result. injection Hrel as <-.
  destruct (relationships_of_returns elements') as (m' & -> & Hk' & Hget').
  { intros e He. eapply build_loop_nonempty; [exact Hm|]. by rewrite Hperm. }
  eexists. split; [done|]. intros i j.
  assert (Hk : NoDup m.*1).
  { eapply build_loop_keys; [exact Hm|apply NoDup_nil_2]. }
  rewrite !joined_iff by done.
  assert (Hsame : ∀ k i, i ∈ map_get k m ↔ i ∈ map_get k m').
  { intros k i'. rewrite Hget', (build_loop_get _ _ _ _ _ Hm). simpl.
    rewrite elem_of_empty. setoid_rewrite Hperm. tauto. }
  by setoid_rewrite Hsame.
Qed.

Lemma map_add_nonempty k i (m : connection_map) :
  (∀ k' ids, (k', ids) ∈ m → ids ≠ ∅) →
  ∀ k' ids, (k', ids) ∈ map_add k i m → ids ≠ ∅.
Proof using Type.
  clear set_list_perm set_list E fmt.
  induction m as [|[k0 ids0] m IH]; simpl; intros Hne k' ids.
  - intros [= -> ->]%list_elem_of_singleton. set_solver.
  - case_decide.
    + intros [[= -> ->]|Hin]%elem_of_cons; [set_solver|].
      eapply Hne. by right.
    + intros [[= -> ->]|Hin]%elem_of_cons.
      * eapply Hne. left.
      * eapply IH; [|done]. intros k1 ids1 ?. eapply Hne. by right.
Qed.

Lemma build_loop_sets_nonempty (es : list element) m m' :
  build_loop es m = inr m' →
  (∀ k ids, (k, ids) ∈ m → ids ≠ ∅) →
  ∀ k ids, (k, ids) ∈ m' → ids ≠ ∅.
Proof using Type.
  clear set_list_perm.
  revert m. induction es as [|e es IH]; intros m Hb Hne; simpl in Hb.
  - simpl_result. by simplify_eq.
  - destruct (start_point e); [done|]. destruct (end_point e); [done|].
    simpl_result. eapply IH; [done|]. by do 2 apply map_add_nonempty.
Qed.

(** X20. The connection map has one entry per endpoint coordinate of the
    collection and no other: its keys are distinct, a coordinate is a key
    exactly when it is the first or last coordinate of some record, and the
    set under a key is not empty and holds exactly the ids of the records
    with that endpoint. *)
Theorem connection_map_spec (elements : list element) m :
  _build_connection_map elements = inr m →
  NoDup m.*1
  ∧ (∀ k, k ∈ m.*1 ↔ ∃ e, e ∈ elements ∧ k ∈ endpoints e)
  ∧ (∀ k ids, (k, ids) ∈ m →
       ids ≠ ∅
       ∧ ∀ i, i ∈ ids ↔ ∃ e, e ∈ elements ∧ e_id e = i ∧ k ∈ endpoints e).
Proof using Type.
  clear set_list_perm. intros Hm.
  assert (Hkeys : NoDup m.*1).
  { eapply build_loop_keys; [exact Hm|apply NoDup_nil_2]. }
  assert (Hget : ∀ k i, i ∈ map_get k m ↔
            ∃ e, e ∈ elements ∧ e_id e = i ∧ k ∈ endpoints e).
  { intros k i. rewrite (build_loop_get _ _ _ _ _ Hm). simpl.
    rewrite elem_of_empty. tauto. }
  assert (Hne : ∀ k ids, (k, ids) ∈ m → ids ≠ ∅).
  { eapply build_loop_sets_nonempty; [exact Hm|].
    by intros k ids ?%elem_of_nil. }
  split_and!; [done| |].
  - intros k. split.
    + intros ((k' & ids) & -> & Hin)%list_elem_of_fmap. simpl.
      destruct (set_choose_L ids) as [i Hi]; [by eapply Hne|].
      rewrite <-(map_get_entry _ _ _ Hkeys Hin) in Hi.
      apply Hget in Hi as (e & ? & _ & ?). eauto.
    + intros (e & He & Hk).
      assert (Hi : e_id e ∈ map_get k m) by (apply Hget; eauto).
      apply map_get_elem in Hi. apply list_elem_of_fmap.
      by exists (k, map_get k m).
  - intros k ids Hin. split; [by eapply Hne|].
    intros i. by rewrite <-(map_get_entry _ _ _ Hkeys Hin), Hget.
Qed.

Lemma length_pairs l : length (pairs l) = choose2 (length l).
Proof using Type.
  clear set_list_perm.
  induction l as [|x l IH]; simpl; [done|].
  by rewrite length_app, length_fmap, IH.
Qed.

(** X21. Each key contributes one relationship per unordered pair of its
    ids: the list returned by [_generate_relationships] has, summed over
    the keys, n(n-1)/2 entries for a set of n ids. *)
Theorem relationships_count (m : connection_map) :
  length (_generate_relationships m)
  = sum_list ((λ kv, (size kv.2 * (size kv.2 - 1) / 2)%nat) <$> m).
Proof.
  induction m as [|[k ids] m IH]; [done|].
  rewrite generate_relationships_cons, length_app, IH, length_pairs,
    length_set_list, choose2_div. done.
Qed.

(** ** main.py: what a synchronisation leaves *)

Lemma graph_cleanup_returns g u g' :
  GraphBuilder_cleanup g = (inr u, g') → g' = Neo4j ∅ [].
Proof using Type.
  clear set_list_perm. unfold GraphBuilder_cleanup.
  destruct (delete_fault E); [done|]. by intros [= <-].
Qed.

Lemma names_agree (data : list element) (t : gmap Z row) g :
  (∀ i, fst <$> t !! i = nodes g !! i) →
  ∀ i, fst <$> upserted data t !! i = nodes (foldl merge_node g data) !! i.
Proof using Type.
  clear set_list_perm.
  revert t g. induction data as [|item data IH]; intros t g Hag; [done|].
  unfold upserted in *. simpl. apply IH. intros i. simpl.
  rewrite !lookup_insert. by case_decide.
Qed.

Lemma upserted_is_Some (data : list element) (t : gmap Z row) i :
  is_Some (upserted data t !! i) ↔ is_Some (t !! i) ∨ i ∈ e_id <$> data.
Proof using Type.
  clear set_list_perm.
  revert t. induction data as [|item data IH]; intros t.
  - simpl. rewrite elem_of_nil. tauto.
  - unfold upserted in *. simpl. rewrite IH, lookup_insert, elem_of_cons.
    case_decide; subst; split; intros; destruct_or?; eauto; congruence.
Qed.

(** X22. After a synchronisation that raised nothing, the table and the
    graph hold the same ids, those of the collection, with the same names:
    the name column of a row is the name of the node with its id. The
    snapshot file is not touched by these four calls. *)
Theorem sinks_agree (processed_data : list element) w u w' t :
  sync processed_data w = (inr u, w', t) →
  snapshot w' = snapshot w
  ∧ (∀ i, is_Some (table w' !! i) ↔ i ∈ e_id <$> processed_data)
  ∧ (∀ i, is_Some (nodes (graph w') !! i) ↔ i ∈ e_id <$> processed_data)
  ∧ (∀ i, fst <$> table w' !! i = nodes (graph w') !! i).
Proof using Type.
  clear set_list_perm. intros Hrun. unfold sync in Hrun. run_inv.
  repeat match goal with
         | H : SqlDataStorage_cleanup _ = (inr _, _) |- _ =>
             apply cleanup_returns in H as ->
         | H : SqlDataStorage_save_data _ _ = (inr _, _) |- _ =>
             apply save_data_returns in H as ->
         | H : GraphBuilder_cleanup _ = (inr _, _) |- _ =>
             apply graph_cleanup_returns in H as ->
         | H : GraphBuilder_build_graph _ _ _ = (inr _, _) |- _ =>
             apply build_graph_returns in H as (m & _ & ->)
         end.
  assert (Hnames : ∀ i,
    fst <$> upserted processed_data ∅ !! i
    = nodes (foldl connect (foldl merge_node (Neo4j ∅ []) processed_data)
               (_generate_relationships m)) !! i).
  { intros i. rewrite foldl_connect_nodes. by apply names_agree. }
  assert (Hrows : ∀ i, is_Some (upserted processed_data ∅ !! i)
                       ↔ i ∈ e_id <$> processed_data).
  { intros i. rewrite upserted_is_Some, lookup_empty, is_Some_alt. tauto. }
  split_and!; [done|done| |done].
  intros i. rewrite <-Hnames, <-Hrows, !is_Some_alt.
  by destruct (upserted processed_data ∅ !! i).
Qed.

(** X23. A synchronisation is a full replace: when it raises nothing, the
    table and the graph it leaves do not depend on what the sinks held
    before, and from any other starting state it succeeds with the same
    calls and leaves the same table and graph. *)
Theorem sync_replaces (processed_data : list element) w1 u w1' t :
  sync processed_data w1 = (inr u, w1', t) →
  ∀ w2, ∃ w2',
    sync processed_data w2 = (inr u, w2', t)
    ∧ table w2' = table w1' ∧ graph w2' = graph w1'
    ∧ snapshot w2' = snapshot w2.
Proof using Type.
  clear set_list_perm. intros Hrun w2. revert Hrun.
  unfold sync, mbind, M_bind, invoke, on_table, on_graph. simpl.
  destruct cleanup_uniform as [[e He]|He]; rewrite !He; simpl; [done|].
  destruct (SqlDataStorage_save_data processed_data ∅) as [[e|[]] t1];
    simpl; [done|].
  destruct graph_cleanup_uniform as [[e Hg]|Hg]; rewrite !Hg; simpl; [done|].
  destruct (GraphBuilder_build_graph processed_data _ (Neo4j ∅ []))
    as [[e|[]] g1]; simpl; [done|].
  intros [= <- <- <-]. by eexists.
Qed.


End Properties.

(** * The properties on the sample data *)

(** Decides membership in a list that is written out. *)
Ltac by_cases_in H :=
  repeat (apply elem_of_cons in H as [->|H]);
  [..|by apply elem_of_nil in H].

Lemma elements_enumerates (s : gset Z) : elements s ≡ₚ elements s.
Proof. reflexivity. Defined.

Lemma junction_geometries e : e ∈ junction → e_geometry e ≠ [].
Proof. intros He. by_cases_in He; discriminate. Defined.

Lemma loop_pair_geometries e : e ∈ loop_pair → e_geometry e ≠ [].
Proof. intros He. by_cases_in He; discriminate. Defined.

Lemma no_self_edges_witness :
  ∃ relationships,
    relationships_of elements loop_pair = inr relationships
    ∧ ∀ r, r ∈ relationships → rel_from r ≠ rel_to r.
Proof.
  apply (no_self_edges elements elements_enumerates loop_pair).
  apply loop_pair_geometries.
Defined.

Lemma endpoint_grouping_witness :
  ∃ relationships,
    relationships_of elements junction = inr relationships
    ∧ length (filter (within [1; 2; 3]) relationships) = 3%nat.
Proof.
  destruct (endpoint_grouping elements elements_enumerates junction)
    as (relationships & Hrel & _ & Hgroup).
  - vm_compute. repeat constructor; set_solver.
  - apply junction_geometries.
  - exists relationships. split; [exact Hrel|].
    destruct (Hgroup (1, 1) junction) as [_ Hcount]; [..|exact Hcount].
    + repeat constructor; set_solver.
    + done.
    + intros a Ha. by_cases_in Ha; unfold endpoints; simpl; set_solver.
    + intros a b k Ha Hb Hab Hka Hkb.
      by_cases_in Ha; by_cases_in Hb; try done;
        unfold endpoints in Hka, Hkb; simpl in Hka, Hkb; set_solver.
Defined.

Lemma edges_collapsed_witness :
  ∃ g',
    GraphBuilder_build_graph elements (sample_env connected_response None None)
      loop_pair None (Neo4j ∅ []) = (inr (), g')
    ∧ NoDup (rels g')
    ∧ length (filter ((1, 2) =.) (rels g')) = 1%nat
    ∧ length (filter ((2, 1) =.) (rels g')) = 1%nat.
Proof.
  destruct (edges_collapsed elements elements_enumerates
              (sample_env connected_response None None) loop_pair None
              (Neo4j ∅ []))
    as (g' & Hbuild & Hnd & Hpairs).
  - reflexivity.
  - reflexivity.
  - apply loop_pair_geometries.
  - apply NoDup_nil_2.
  - exists g'. split; [exact Hbuild|]. split; [exact Hnd|].
    apply (Hpairs (way_record 1 [(0, 0); (5, 5); (1, 1)])
                  (way_record 2 [(1, 1); (0, 0)])).
    + left.
    + right. left.
    + discriminate.
    + exists (0, 0). unfold endpoints. simpl. split; [left|right; left].
Defined.

(** A run whose [TRUNCATE] fails after the snapshot was written. *)
Lemma truncate_failure_run :
  main elements (sample_env connected_response None (Some Psycopg2Error))
    pretty fresh_world
  = (inr (),
     {| snapshot := JsonFile
          [Element 1 [Point 0 0; Point 1 1] (Some "Wisla");
           Element 2 [Point 1 1; Point 2 2] (Some "Wisla")];
        table := ∅; graph := Neo4j ∅ [] |},
     [Call Validate; Call Init; Call Geocode; Call Download; Call Process;
      Call JsonGet; Call JsonSave; Call SqlCleanup;
      Raised SqlCleanup (DatabaseError (LibraryError Psycopg2Error));
      LogError DatabaseErr (DatabaseError (LibraryError Psycopg2Error))]).
Proof. vm_compute. reflexivity. Defined.

(** A run that cannot open the snapshot file for writing. *)
Lemma write_failure_run :
  main elements (sample_env connected_response (Some OSError) None)
    pretty fresh_world
  = (inr (), fresh_world,
     [Call Validate; Call Init; Call Geocode; Call Download; Call Process;
      Call JsonGet; Call JsonSave; Raised JsonSave (LibraryError OSError);
      LogError UnexpectedErr (LibraryError OSError)]).
Proof. vm_compute. reflexivity. Defined.

(** C1 fails as stated: the run above had [sql_storage.cleanup] raise, and
    the snapshot file, missing at the start, holds the new collection at the
    end. *)
Lemma failed_run_updates_snapshot :
  ¬ ∀ (E : @env Z) (w : world) r w' t o e,
      main elements E pretty w = (r, w', t) →
      sink_op o → Raised o e ∈ t →
      snapshot w' = snapshot w.
Proof.
  intros Hclaim.
  pose proof (Hclaim _ _ _ _ _ SqlCleanup
                (DatabaseError (LibraryError Psycopg2Error))
                truncate_failure_run) as Hsame.
  simpl in Hsame. discriminate Hsame.
  - left.
  - do 8 right. left.
Qed.

Lemma snapshot_written_before_sinks_witness :
  ∃ d,
    process_data connected_response = inr d
    ∧ snapshot
        (main elements
           (sample_env connected_response None (Some Psycopg2Error))
           pretty fresh_world).1.2
      = JsonFile d.
Proof.
  destruct (snapshot_written_before_sinks elements _ _ _ _ _ _ SqlCleanup
              (DatabaseError (LibraryError Psycopg2Error))
              truncate_failure_run)
    as (bbox & raw & d & old & _ & Hraw & Hd & _ & _ & Hsnap).
  - left.
  - do 8 right. left.
  - exists d. injection Hraw as <-. split; [exact Hd|].
    rewrite truncate_failure_run. exact Hsnap.
Defined.

Lemma sequencing_on_failure_witness :
  let t :=
    (main elements (sample_env connected_response None (Some Psycopg2Error))
       pretty fresh_world).2 in
  Raised SqlCleanup (DatabaseError (LibraryError Psycopg2Error)) ∈ t
  ∧ (Call GraphCleanup ∉ t) ∧ (Call GraphBuild ∉ t).
Proof.
  rewrite truncate_failure_run. simpl.
  assert (Hraised :
    Raised SqlCleanup (DatabaseError (LibraryError Psycopg2Error))
    ∈ [Call Validate; Call Init; Call Geocode; Call Download; Call Process;
       Call JsonGet; Call JsonSave; Call SqlCleanup;
       Raised SqlCleanup (DatabaseError (LibraryError Psycopg2Error));
       LogError DatabaseErr (DatabaseError (LibraryError Psycopg2Error))]).
  { do 8 right. left. }
  split; [exact Hraised|].
  destruct (sequencing_on_failure elements _ _ _ _ _ _ _
              truncate_failure_run (or_introl Hraised)) as (Hc & Hb & _).
  exact (conj Hc Hb).
Defined.



Lemma first_run_passes_gate_witness :
  main elements (sample_env empty_response None None) pretty fresh_world
  = (inr (),
     {| snapshot := JsonFile []; table := ∅; graph := Neo4j ∅ [] |},
     [Call Validate; Call Init; Call Geocode; Call Download; Call Process;
      Call JsonGet; Call JsonSave; Call SqlCleanup; Call SqlSave;
      Call GraphCleanup; Call GraphBuild]).
Proof.
  apply (proj2 (first_run_passes_gate elements
                  (sample_env empty_response None None) pretty)
           fresh_world "51.0,19.2,53.5,23.1" empty_response);
    reflexivity.
Defined.

(** C6 fails as stated: way 7 of the sample response has no geometry and is
    emitted with empty coordinates. *)
Lemma way_without_geometry_accepted :
  ¬ ∀ (raw : @raw_data Z) d,
      process_data raw = inr d → ∀ e, e ∈ d → e_geometry e ≠ [].
Proof.
  intros Hclaim.
  apply (Hclaim sample_response _ eq_refl (Element 7 [] (Some "Wisla"))).
  - do 2 right. left.
  - reflexivity.
Qed.

Lemma process_data_keeps_ways_witness :
  ∃ processed_data,
    process_data sample_response = inr processed_data
    ∧ Forall2 normalises
        [raw_way 1 (Some [(0, 0); (1, 1)]); raw_way 2 (Some [(1, 1); (2, 2)]);
         raw_way 7 None]
        processed_data.
Proof.
  apply (process_data_keeps_ways sample_response).
  - intros el Hel. simpl in Hel. by_cases_in Hel; by eexists.
  - intros el Hel _. simpl in Hel. by_cases_in Hel; by eexists.
Defined.

Lemma differ_reflexive_and_sensitive_witness :
  is_data_changed junction (Some junction) = false
  ∧ is_data_changed junction None = true
  ∧ is_data_changed junction (Some loop_pair) = true.
Proof.
  destruct (@differ_reflexive_and_sensitive Z _) as (Hrefl & Habsent & Hdiff).
  split; [apply Hrefl|]. split; [apply Habsent|].
  apply Hdiff. discriminate.
Defined.

(** ** Scenarios *)

(** Two records A = [(0,0),(1,1)] and B = [(1,1),(2,2)]: one relationship,
    joining A and B. *)
Example two_connected_records :
  ∃ r,
    relationships_of elements
      [way_record 1 [(0, 0); (1, 1)]; way_record 2 [(1, 1); (2, 2)]]
    = inr [r]
    ∧ joins r 1 2.
Proof. eexists. split; [reflexivity|]. by right. Qed.

(** Three records meeting at (1,1): three relationships. *)
Example three_way_junction :
  ∃ relationships,
    relationships_of elements junction = inr relationships
    ∧ length relationships = 3%nat.
Proof. eexists. split; reflexivity. Qed.

(** The list returned by [_generate_relationships] names the pair {1, 2} of
    [loop_pair] twice, once for each coordinate the two records share; the
    store keeps one relationship per direction. *)
Example shared_pair_listed_twice :
  ∃ relationships,
    relationships_of elements loop_pair = inr relationships
    ∧ length (filter (λ r, joins r 1 2) relationships) = 2%nat.
Proof. eexists. split; reflexivity. Qed.

(** A successful run on the two connected ways: both ways in the snapshot,
    in the table and in the graph, connected in both directions. *)
Example successful_run :
  let '(r, w, t) :=
    main elements (sample_env connected_response None None) pretty
      fresh_world in
  r = inr ()
  ∧ snapshot w = JsonFile
      [Element 1 [Point 0 0; Point 1 1] (Some "Wisla");
       Element 2 [Point 1 1; Point 2 2] (Some "Wisla")]
  ∧ table w = {[ 1 := (Some "Wisla", "LINESTRING(0 0, 1 1)");
                 2 := (Some "Wisla", "LINESTRING(1 1, 2 2)") ]}
  ∧ nodes (graph w) = {[ 1 := Some "Wisla"; 2 := Some "Wisla" ]}
  ∧ rels (graph w) ≡ₚ [(1, 2); (2, 1)]
  ∧ last t = Some (Call GraphBuild).
Proof.
  vm_compute. split_and!; try reflexivity.
  apply Permutation_swap.
Qed.

(** ** The further properties on the sample data *)

Lemma validate_complete_witness :
  validate sample_config = inr ()
  ∧ validate no_region_config = raise ValueError.
Proof.
  split.
  - apply (proj1 (validate_complete sample_config)). reflexivity.
  - apply (proj1 (proj2 (validate_complete no_region_config))). reflexivity.
Defined.

Lemma missing_region_is_unexpected_witness :
  main elements
    (custom_env no_region_config sample_location connected_response
       None None (λ _, None))
    pretty fresh_world
  = (inr (), fresh_world,
     [Call Validate; Raised Validate (LibraryError ValueError);
      LogError UnexpectedErr (LibraryError ValueError)]).
Proof.
  apply (missing_region_is_unexpected elements
           (custom_env no_region_config sample_location connected_response
              None None (λ _, None))).
  reflexivity.
Defined.

Lemma get_region_bbox_returns_witness :
  get_region_bbox (sample_env connected_response None None) "Mazowieckie"
  = inr "51.0,19.2,53.5,23.1".
Proof.
  apply (get_region_bbox_returns (sample_env connected_response None None)).
  exists "51.0", "53.5", "19.2", "23.1", []. split; reflexivity.
Defined.

Lemma get_region_bbox_failures_witness :
  get_region_bbox
    (custom_env sample_config NotLocated connected_response None None
       (λ _, None)) "Atlantis"
  = inl (GeocodingError None)
  ∧ get_region_bbox
      (custom_env sample_config (Located ["51.0"; "53.5"]) connected_response
         None None (λ _, None)) "Mazowieckie"
    = raise IndexError.
Proof.
  split.
  - apply (proj1 (get_region_bbox_failures _ "Atlantis")). reflexivity.
  - apply (proj2 (get_region_bbox_failures _ "Mazowieckie")
             ["51.0"; "53.5"]); [reflexivity|simpl; lia].
Defined.

Lemma process_data_fails_iff_witness :
  process_data untyped_response = raise KeyError.
Proof.
  apply (proj1 (process_data_fails_iff untyped_response)).
  eexists. split; [right; left|]. by left.
Defined.

Lemma trace_shape_witness :
  let t :=
    (main elements (sample_env connected_response None (Some Psycopg2Error))
       pretty fresh_world).2 in
  last (calls_of t) = Some SqlCleanup
  ∧ t = (Call <$> calls_of t)
        ++ [Raised SqlCleanup (DatabaseError (LibraryError Psycopg2Error));
            LogError DatabaseErr (DatabaseError (LibraryError Psycopg2Error))].
Proof.
  destruct (trace_shape elements _ _ _ _ _ _ truncate_failure_run)
    as [_ [Hok|(o & e & Hlast & Ht)]].
  - discriminate Hok.
  - rewrite truncate_failure_run. split; reflexivity.
Defined.

Lemma calls_in_order_witness :
  calls_of
    (main elements (sample_env connected_response None (Some Psycopg2Error))
       pretty fresh_world).2
  `prefix_of` pipeline.
Proof.
  rewrite truncate_failure_run.
  exact (calls_in_order elements _ _ _ _ _ _ truncate_failure_run).
Defined.

Lemma stores_untouched_witness :
  let w' :=
    (main elements (sample_env connected_response (Some OSError) None)
       pretty fresh_world).1.2 in
  table w' = table fresh_world ∧ graph w' = graph fresh_world.
Proof.
  destruct (stores_untouched elements _ _ _ _ _ _ write_failure_run)
    as (_ & Htable & Hgraph).
  rewrite write_failure_run. split.
  - apply Htable. set_solver.
  - apply Hgraph. set_solver.
Defined.

Lemma json_round_trip_witness :
  JsonDataStorage_get_data (sample_env connected_response None None)
    (JsonFile junction)
  = inr (Some junction).
Proof.
  apply (json_round_trip (sample_env connected_response None None)
           junction NoFile (JsonFile junction) ()); reflexivity.
Defined.

Lemma json_save_failure_witness :
  JsonDataStorage_get_data
    (custom_env sample_config sample_location connected_response
       (Some OSError) None (λ _, None))
    Garbage
  = raise JSONDecodeError.
Proof.
  destruct (json_save_failure
              (custom_env sample_config sample_location connected_response
                 (Some OSError) None (λ _, None))
              junction NoFile Garbage (LibraryError OSError) eq_refl)
    as [[Hopen _]|(_ & _ & _ & Hget)].
  - by destruct Hopen.
  - by apply Hget.
Defined.

(** The snapshot already holds what the two connected ways process to. *)
Lemma unchanged_data_is_skipped_witness :
  let w :=
    {| snapshot := JsonFile
         [Element 1 [Point 0 0; Point 1 1] (Some "Wisla");
          Element 2 [Point 1 1; Point 2 2] (Some "Wisla")];
       table := ∅; graph := Neo4j ∅ [] |} in
  main elements (sample_env connected_response None None) pretty w
  = (inr (), w,
     [Call Validate; Call Init; Call Geocode; Call Download; Call Process;
      Call JsonGet]).
Proof.
  intros w.
  apply (unchanged_data_is_skipped elements
           (sample_env connected_response None None) pretty w
           "51.0,19.2,53.5,23.1" connected_response
           [Element 1 [Point 0 0; Point 1 1] (Some "Wisla");
            Element 2 [Point 1 1; Point 2 2] (Some "Wisla")]);
    reflexivity.
Defined.

Lemma rerun_is_skipped_witness :
  let E := sample_env connected_response None (Some Psycopg2Error) in
  let w' := (main elements E pretty fresh_world).1.2 in
  table w' = ∅
  ∧ main elements E pretty w'
    = (inr (), w',
       [Call Validate; Call Init; Call Geocode; Call Download; Call Process;
        Call JsonGet]).
Proof.
  cbv zeta. rewrite truncate_failure_run. split; [reflexivity|].
  apply (rerun_is_skipped elements _ _ _ _ _ _ truncate_failure_run).
  - do 6 right. left.
  - set_solver.
  - reflexivity.
Defined.

Lemma corrupt_snapshot_blocks_witness :
  let w := {| snapshot := Garbage; table := ∅; graph := Neo4j ∅ [] |} in
  (main elements (sample_env connected_response None None) pretty w).1.2 = w.
Proof.
  intros w.
  destruct (main elements (sample_env connected_response None None) pretty w)
    as [[r w'] t] eqn:Hrun.
  by destruct (corrupt_snapshot_blocks elements _ _ w r w' t eq_refl Hrun)
    as [-> _].
Defined.

Lemma save_data_upserts_witness :
  ∃ t',
    SqlDataStorage_save_data (sample_env connected_response None None) pretty
      junction {[ 9 := (None, "LINESTRING(7 7, 8 8)") ]}
    = (inr (), t')
    ∧ t' !! 2 = Some (None, "LINESTRING(1 1, 2 2)")
    ∧ t' !! 9 = Some (None, "LINESTRING(7 7, 8 8)").
Proof.
  destruct (save_data_upserts (sample_env connected_response None None)
              pretty junction {[ 9 := (None, "LINESTRING(7 7, 8 8)") ]})
    as (t' & Hsave & Hrow & Hother).
  - reflexivity.
  - intros item _. reflexivity.
  - exists t'. split; [exact Hsave|]. split.
    + apply (Hrow [way_record 1 [(0, 0); (1, 1)]]
               (way_record 2 [(1, 1); (2, 2)])
               [way_record 3 [(3, 3); (1, 1)]]); [reflexivity|].
      simpl. set_solver.
    + rewrite Hother; [reflexivity|]. simpl. set_solver.
Defined.

Lemma save_data_stops_half_way_witness :
  let E :=
    custom_env sample_config sample_location connected_response None None
      (λ i, if bool_decide (i = 2) then Some Psycopg2Error else None) in
  SqlDataStorage_save_data E pretty junction ∅
  = (inl (DatabaseError (LibraryError Psycopg2Error)),
     {[ 1 := (None, "LINESTRING(0 0, 1 1)") ]}).
Proof.
  intros E.
  destruct (SqlDataStorage_save_data E pretty junction ∅) as [[e|u] t']
    eqn:Hsave; [|discriminate Hsave].
  destruct (save_data_stops_half_way E pretty junction ∅ t' e eq_refl Hsave)
    as (pre & item & post & l & _ & _ & _ & _).
  vm_compute in Hsave. injection Hsave as <- <-. reflexivity.
Defined.

Lemma connection_failure_wrapped_twice_witness :
  let E :=
    custom_env sample_config sample_location connected_response None
      (Some Psycopg2Error) (λ _, None) in
  SqlDataStorage_cleanup E {[ 9 := (None, "LINESTRING(7 7, 8 8)") ]}
  = (inl (DatabaseError (DatabaseError (LibraryError Psycopg2Error))),
     {[ 9 := (None, "LINESTRING(7 7, 8 8)") ]}).
Proof.
  intros E.
  apply (proj1 (connection_failure_wrapped_twice E pretty junction
                  {[ 9 := (None, "LINESTRING(7 7, 8 8)") ]} Psycopg2Error)).
  reflexivity.
Defined.

Lemma build_graph_well_formed_witness :
  ∃ g',
    GraphBuilder_build_graph elements (sample_env connected_response None None)
      junction None (Neo4j ∅ []) = (inr (), g')
    ∧ well_formed g'.
Proof.
  eexists. split; [reflexivity|].
  eapply (build_graph_well_formed elements elements_enumerates
            (sample_env connected_response None None) junction None
            (Neo4j ∅ []) ()); [reflexivity|].
  intros a b Hab. by apply elem_of_nil in Hab.
Defined.

Lemma empty_geometry_breaks_build_witness :
  GraphBuilder_build_graph elements (sample_env connected_response None None)
    with_empty None (Neo4j ∅ [])
  = (inl (GraphBuilderError (LibraryError IndexError)),
     Neo4j {[ 1 := None; 7 := None ]} []).
Proof.
  rewrite (empty_geometry_breaks_build elements
             (sample_env connected_response None None) with_empty None
             (Neo4j ∅ []) (way_record 7 [])); [reflexivity..| |reflexivity].
  right. left.
Defined.

Lemma isolated_record_witness :
  ∃ g',
    GraphBuilder_build_graph elements (sample_env connected_response None None)
      with_island None (Neo4j ∅ []) = (inr (), g')
    ∧ is_Some (nodes g' !! 3)
    ∧ ∀ x, x ∈ rels g' → x.1 ≠ 3 ∧ x.2 ≠ 3.
Proof.
  eexists. split; [reflexivity|].
  apply (isolated_record elements elements_enumerates
           (sample_env connected_response None None) with_island None ()
           _ (way_record 3 [(8, 8); (9, 9)])).
  - reflexivity.
  - repeat constructor; set_solver.
  - do 2 right. left.
  - intros b Hb Hne (k & Hka & Hkb).
    by_cases_in Hb; try done;
      unfold endpoints in Hka, Hkb; simpl in Hka, Hkb; set_solver.
Defined.

Lemma relationships_order_free_witness :
  ∃ rels rels',
    relationships_of elements junction = inr rels
    ∧ relationships_of elements (reverse junction) = inr rels'
    ∧ ∀ i j, (∃ r, r ∈ rels ∧ joins r i j) ↔ (∃ r, r ∈ rels' ∧ joins r i j).
Proof.
  destruct (relationships_order_free elements elements_enumerates
              junction (reverse junction) _
              (Permutation_sym (reverse_Permutation _)) eq_refl)
    as (rels' & Hrel' & Hsame).
  eexists _, rels'. split; [reflexivity|]. split; [exact Hrel'|exact Hsame].
Defined.

Lemma connection_map_spec_witness :
  ∃ m,
    _build_connection_map junction = inr m
    ∧ NoDup m.*1
    ∧ ∀ k, k ∈ m.*1 ↔ ∃ e, e ∈ junction ∧ k ∈ endpoints e.
Proof.
  eexists. split; [reflexivity|].
  destruct (connection_map_spec junction _ eq_refl) as (Hnd & Hkeys & _).
  split; [exact Hnd|exact Hkeys].
Defined.

Lemma relationships_count_witness :
  length (_generate_relationships elements
            [((1, 1), {[ 1; 2; 3 ]}); ((0, 0), {[ 1 ]}); ((2, 2), {[ 2; 4 ]})])
  = 4%nat.
Proof.
  rewrite (relationships_count (num:=Z) elements elements_enumerates).
  reflexivity.
Defined.

Lemma sinks_agree_witness :
  let w' :=
    (sync elements (sample_env connected_response None None) pretty junction
       fresh_world).1.2 in
  fst <$> table w' !! 2 = nodes (graph w') !! 2
  ∧ fst <$> table w' !! 5 = nodes (graph w') !! 5.
Proof.
  intros w'. cut (∀ i, fst <$> table w' !! i = nodes (graph w') !! i);
    [by intros Hall; split; apply Hall|]. subst w'.
  destruct (sync elements (sample_env connected_response None None) pretty
              junction fresh_world) as [[r w1] t] eqn:Hrun.
  assert (r = inr ()) as ->.
  { vm_compute in Hrun. by injection Hrun as <- _ _. }
  by destruct (sinks_agree elements _ _ _ _ _ _ _ Hrun) as (_ & _ & _ & Hag).
Defined.

Lemma sync_replaces_witness :
  let E := sample_env connected_response None None in
  let full :=
    {| snapshot := Garbage; table := {[ 9 := (None, "LINESTRING(7 7, 8 8)") ]};
       graph := Neo4j {[ 9 := None ]} [] |} in
  table (sync elements E pretty junction full).1.2
  = table (sync elements E pretty junction fresh_world).1.2.
Proof.
  intros E full.
  destruct (sync elements E pretty junction fresh_world) as [[r w1] t]
    eqn:Hrun.
  assert (r = inr ()) as ->.
  { vm_compute in Hrun. by injection Hrun as <- _ _. }
  destruct (sync_replaces elements _ _ _ _ _ _ _ Hrun full)
    as (w2 & -> & Htable & _).
  exact Htable.
Defined.

